(** * Context management of the chat-completion wrapper

    A shallow embedding of the message-handling code of the repository:
    the compression strategies of [notes.md] ([truncateMessages],
    [summarizeOldMessages], [truncateByTokens], [smartContextManagement]),
    the terminal client's [callChatEndpoint] and the server's [POST /chat]
    handler of [cli.js], followed by the properties of the context-window
    manager that the specification states about them. *)

From Stdlib Require Import ZArith QArith Lia.
From stdpp Require Import base list strings pretty.

Local Open Scope string_scope.
Local Open Scope nat_scope.

(** ** Messages *)

(** A chat message as every file of the repository builds it:
    [{ role: ..., content: ... }]. *)
Record Message := mkMessage { role : string; content : string }.

(** [m.role === "system"] *)
Definition is_system (m : Message) : bool := String.eqb (role m) "system".

(** ** The tokenizer

    [encoding_for_model("gpt-4o-mini")] of the [tiktoken] package: the code
    only ever uses [enc.encode(text).length]. *)
Class Encoding := encode : string → list N.

Definition tokens `{Encoding} (m : Message) : nat := length (encode (content m)).

(** Sum of the token counts of a sequence of messages. *)
Definition total_tokens `{Encoding} (l : list Message) : nat :=
  sum_list_with tokens l.

(** A tokenizer to run the code on concrete conversations: one token per
    character. *)
Definition char_encoding : Encoding :=
  λ s, Ascii.N_of_ascii <$> String.list_ascii_of_string s.

(** A second one that counts the same but names every token 0. *)
Definition blank_encoding : Encoding :=
  λ s, (λ _, 0%N) <$> String.list_ascii_of_string s.

(** ** JavaScript arrays *)

(** Relative index of [Array.prototype.slice]: a negative index counts from
    the end, and the result is clamped to [0, len]. *)
Definition relative_index (len : nat) (k : Z) : nat :=
  if (k <? 0)%Z then Z.to_nat (Z.max (Z.of_nat len + k) 0)
  else Nat.min (Z.to_nat k) len.

(** [arr.slice(start, end)] *)
Definition slice {A} (l : list A) (start stop : Z) : list A :=
  let from := relative_index (length l) start in
  let to := relative_index (length l) stop in
  take (to - from) (drop from l).

(** [arr.slice(start)] *)
Definition slice_from {A} (l : list A) (start : Z) : list A :=
  drop (relative_index (length l) start) l.

(** [arr.find(pred)]: the first element satisfying [pred], or [undefined]. *)
Definition find {A} (pred : A → bool) (l : list A) : option A := List.find pred l.

(** [[x, ...rest].filter(Boolean)] for a possibly [undefined] head [x]. *)
Definition opt_cons {A} (x : option A) (rest : list A) : list A :=
  match x with Some a => a :: rest | None => rest end.

(** ** Strategy 1: sliding window ([truncateMessages]) *)

Definition truncateMessages (messages : list Message) (maxMessages : Z) : list Message :=
  let systemMessage := find is_system messages in
  let recentMessages := slice_from messages (- maxMessages) in
  match systemMessage with
  | Some s => s :: recentMessages
  | None => recentMessages
  end.

(** ** Strategy 3: token-based truncation ([truncateByTokens]) *)

Section TokenTruncation.
Context `{Encoding}.

(** The [for (let i = messages.length - 1; i >= 0; i--)] loop, run over the
    messages still to visit, newest first.  [totalTokens] and [result] are
    the loop's two mutable variables. *)
Fixpoint walk (maxTokens : nat) (newest_first : list Message)
    (totalTokens : nat) (result : list Message) : list Message :=
  match newest_first with
  | [] => result
  | msg :: older =>
      if is_system msg then walk maxTokens older totalTokens result (* continue *)
      else
        let tokens := tokens msg in
        if maxTokens <? totalTokens + tokens then result (* break *)
        else walk maxTokens older (totalTokens + tokens) (msg :: result) (* unshift *)
  end.

Definition truncateByTokens (messages : list Message) (maxTokens : nat) : list Message :=
  let systemMsg := find is_system messages in
  let '(totalTokens, result) :=
    match systemMsg with
    | Some s => (tokens s, [s])
    | None => (0, [])
    end in
  walk maxTokens (reverse messages) totalTokens result.

End TokenTruncation.

(** ** Asynchronous code and the external provider

    The asynchronous functions of the repository await one external service
    (the OpenAI client, or [fetch] against the wrapper's own server), may
    throw, and (in the terminal client) update a module-level array.  A
    computation is run against the service's behaviour and an initial state;
    it yields its outcome, the final state and the requests it issued, in
    order. *)

Record Error := mkError { err_name : string; err_message : string }.

(** [String(err)] *)
Definition String_of_error (e : Error) : string :=
  err_name e +:+ ": " +:+ err_message e.

Inductive Outcome (A : Type) : Type :=
  | Resolved (a : A)
  | Rejected (e : Error).
Arguments Resolved {A} a.
Arguments Rejected {A} e.

Definition Service (Req Resp : Type) : Type := Req → Outcome Resp.

Definition Eff (S Req Resp A : Type) : Type :=
  Service Req Resp → S → Outcome A * S * list Req.

Section Eff.
Context {S Req Resp : Type}.

Definition ret {A} (a : A) : Eff S Req Resp A := λ _ s, (Resolved a, s, []).

Definition throw {A} (e : Error) : Eff S Req Resp A := λ _ s, (Rejected e, s, []).

Definition bind {A B} (m : Eff S Req Resp A) (k : A → Eff S Req Resp B)
    : Eff S Req Resp B :=
  λ srv s,
    match m srv s with
    | (Resolved a, s1, t1) =>
        let '(r, s2, t2) := k a srv s1 in (r, s2, t1 ++ t2)%list
    | (Rejected e, s1, t1) => (Rejected e, s1, t1)
    end.

(** [try { m } catch (err) { handler }] *)
Definition try_catch {A} (m : Eff S Req Resp A) (handler : Error → Eff S Req Resp A)
    : Eff S Req Resp A :=
  λ srv s,
    match m srv s with
    | (Rejected e, s1, t1) =>
        let '(r, s2, t2) := handler e srv s1 in (r, s2, t1 ++ t2)%list
    | done => done
    end.

(** [await service(req)] *)
Definition await (req : Req) : Eff S Req Resp Resp := λ srv s, (srv req, s, [req]).

Definition get_state : Eff S Req Resp S := λ _ s, (Resolved s, s, []).

Definition modify_state (f : S → S) : Eff S Req Resp unit := λ _ s, (Resolved tt, f s, []).
End Eff.

Notation "'let*' x := m 'in' k" := (bind m (λ x, k))
  (at level 10, x name, m at level 100, k at level 200, only parsing).
Notation "'do' m 'then' k" := (bind m (λ _, k))
  (at level 10, m at level 100, k at level 200, only parsing).

Definition outcome {S Req A} (r : Outcome A * S * list Req) : Outcome A := r.1.1.
Definition final_state {S Req A} (r : Outcome A * S * list Req) : S := r.1.2.
Definition requests {S Req A} (r : Outcome A * S * list Req) : list Req := r.2.

(** ** The OpenAI client as the notes call it *)

Record ChatRequest := mkChatRequest {
  req_model : string;
  req_messages : list Message;
  req_max_tokens : option nat
}.

Record Usage := mkUsage {
  prompt_tokens : nat;
  completion_tokens : nat;
  total_tokens_used : nat
}.

Record Choice := mkChoice { message : option Message }.

Record Completion := mkCompletion { choices : list Choice; usage : Usage }.

Definition type_error (what : string) : Error := mkError "TypeError" what.

Definition newline : string := String (Ascii.ascii_of_nat 10) "".

(** [parts.join(sep)] *)
Fixpoint join (sep : string) (parts : list string) : string :=
  match parts with
  | [] => ""
  | [p] => p
  | p :: rest => p +:+ sep +:+ join sep rest
  end.

(** ** Strategy 2: summarization ([summarizeOldMessages]) *)

Definition summaryPrompt (oldMessages : list Message) : string :=
  "Summarize this conversation concisely:" +:+ newline +:+ newline +:+
  join newline ((λ m, role m +:+ ": " +:+ content m) <$> oldMessages).

Definition summary_request (oldMessages : list Message) : ChatRequest :=
  {| req_model := "gpt-4o-mini";
     req_messages :=
       [ mkMessage "system" "You are a conversation summarizer.";
         mkMessage "user" (summaryPrompt oldMessages) ];
     req_max_tokens := Some 200 |}.

(** [summary.choices[0].message.content]: reading a property of
    [undefined] throws a [TypeError]. *)
Definition first_choice_content (summary : Completion) : Outcome string :=
  match choices summary !! 0 with
  | Some {| message := Some m |} => Resolved (content m)
  | Some {| message := None |} =>
      Rejected (type_error "Cannot read properties of undefined (reading 'content')")
  | None => Rejected (type_error "Cannot read properties of undefined (reading 'message')")
  end.

Definition lift_outcome {S Req Resp A} (o : Outcome A) : Eff S Req Resp A :=
  match o with Resolved a => ret a | Rejected e => throw e end.

Definition summarizeOldMessages (oldMessages : list Message)
    : Eff unit ChatRequest Completion Message :=
  let* summary := await (summary_request oldMessages) in
  let* text := lift_outcome (first_choice_content summary) in
  ret (mkMessage "system" ("Previous conversation summary: " +:+ text)).

(** The usage shown with Strategy 2 ([manageContext]): summarize all but
    the last [maxRecent] messages. *)
Definition manageContext (messages : list Message) (maxRecent : Z)
    : Eff unit ChatRequest Completion (list Message) :=
  if (Z.of_nat (length messages) <=? maxRecent)%Z then ret messages
  else
    let systemMsg := find is_system messages in
    let oldMessages := slice messages 0 (- maxRecent) in
    let recentMessages := slice_from messages (- maxRecent) in
    let* summary := summarizeOldMessages oldMessages in
    ret (opt_cons systemMsg (summary :: recentMessages)).

(** ** Strategy 4: hybrid ([smartContextManagement]) *)

Section Hybrid.
(** [estimateTokens] is called by the notes but defined nowhere in the
    repository: it is a parameter of the model. *)
Variable estimateTokens : list Message → nat.

Definition smartContextManagement (messages : list Message)
    (maxRecent : Z) (maxTokens : nat) : Eff unit ChatRequest Completion (list Message) :=
  if estimateTokens messages <? maxTokens then ret messages
  else
    let systemMsg := find is_system messages in
    let recentMessages := slice_from messages (- maxRecent) in
    let oldMessages :=
      slice messages (match systemMsg with Some _ => 1 | None => 0 end)%Z (- maxRecent) in
    if 0 <? length oldMessages then
      let* summary := summarizeOldMessages oldMessages in
      ret (opt_cons systemMsg (summary :: recentMessages))
    else ret (opt_cons systemMsg recentMessages).
End Hybrid.

(** ** The terminal client ([callChatEndpoint])

    The client keeps one module-level [messages] array: it is the state of
    the computation.  The awaited service is [fetch] against the wrapper's
    [/chat] endpoint. *)

Record FetchBody := mkFetchBody {
  fb_messages : list Message;
  fb_temperature : Q;
  fb_max_tokens : nat
}.

Record FetchRequest := mkFetchRequest {
  fr_url : string;
  fr_method : string;
  fr_body : FetchBody
}.

(** The decoded body of a reply of the server: [data.reply] is a string or
    is missing. *)
Record ReplyData := mkReplyData { reply : option string }.

(** What the client reads of a [fetch] response: [res.ok], [res.status],
    [await res.text()] and [await res.json()] (which rejects on a body that
    is not JSON). *)
Record HttpResponse := mkHttpResponse {
  res_ok : bool;
  res_status : nat;
  res_text : string;
  res_json : Outcome ReplyData
}.

(** [`http://localhost:${process.env.PORT || 3000}/chat`] *)
Definition API_URL (port : option string) : string :=
  "http://localhost:" +:+
  match port with
  | Some p => if String.eqb p "" then "3000" else p
  | None => "3000"
  end +:+ "/chat".

(** The array with which the client starts. *)
Definition initial_messages : list Message :=
  [ mkMessage "system" "You are a helpful assistant chatting in the terminal." ].

(** [messages.push(m)] *)
Definition push {Req Resp} (m : Message) : Eff (list Message) Req Resp unit :=
  modify_state (λ messages, messages ++ [m])%list.

(** [data.reply || "(no reply)"]: an absent or empty reply is falsy. *)
Definition reply_or_default (data : ReplyData) : string :=
  match reply data with
  | Some r => if String.eqb r "" then "(no reply)" else r
  | None => "(no reply)"
  end.

Definition callChatEndpoint (port : option string) (userInput : string)
    : Eff (list Message) FetchRequest HttpResponse string :=
  do push (mkMessage "user" userInput) then
  let* messages := get_state in
  let body := {| fb_messages := messages; fb_temperature := 7 # 10; fb_max_tokens := 256 |} in
  let* res := await {| fr_url := API_URL port; fr_method := "POST"; fr_body := body |} in
  if negb (res_ok res) then
    let errorBody := res_text res in
    throw (mkError "Error" ("HTTP " +:+ pretty (res_status res) +:+ ": " +:+ errorBody))
  else
    let* data := lift_outcome (res_json res) in
    let reply := reply_or_default data in
    do push (mkMessage "assistant" reply) then
    ret reply.

(** ** The terminal client's loop ([main])

    What the client prints: [process.stdout.write], [console.log] and
    [console.error]. *)
Inductive Console : Type :=
  | StdoutWrite (s : string)
  | ConsoleLog (s : string)
  | ConsoleError (s : string).

Section Main.
(** [String.prototype.trim] and [String.prototype.toLowerCase] of the
    JavaScript runtime. *)
Variable trim : string → string.
Variable toLowerCase : string → string.
Variable port : option string.

(** One pass of the [try { ... } catch (err) { ... }] of the loop body. *)
Definition chat_turn (userInput : string)
    : Eff (list Message) FetchRequest HttpResponse (list Console) :=
  try_catch
    (let* reply := callChatEndpoint port userInput in
     ret [StdoutWrite "Assistant: "; ConsoleLog reply; ConsoleLog ""])
    (λ err,
       ret [StdoutWrite "Assistant: ";
            ConsoleError (newline +:+ "Error: " +:+ err_message err)]).

(** The [while (true)] loop, run on the lines the user types, in order.  It
    yields what was printed and whether the loop was left by [break]; when
    the lines run out the loop is still waiting at its prompt. *)
Fixpoint chat_loop (inputs : list string)
    : Eff (list Message) FetchRequest HttpResponse (list Console * bool) :=
  match inputs with
  | [] => ret ([], false)
  | userInput :: rest =>
      if String.eqb (trim userInput) "" then chat_loop rest (* continue *)
      else if String.eqb (toLowerCase userInput) "exit" then ret ([], true) (* break *)
      else
        let* printed := chat_turn userInput in
        let* later := chat_loop rest in
        ret ((printed ++ later.1)%list, later.2)
  end.

Definition main (inputs : list string)
    : Eff (list Message) FetchRequest HttpResponse (list Console) :=
  let* run := chat_loop inputs in
  ret ([ConsoleLog ("=== Console Chat (type 'exit' to quit) ===" +:+ newline)]
       ++ run.1
       ++ (if run.2 then [ConsoleLog "Goodbye!"] else []))%list.
End Main.

(** ** The server ([POST /chat])

    [req.body] is whatever [express.json()] parsed: any JSON value, or
    [undefined]. *)

#[local] Set Warnings "-register-all".

Inductive JSON : Type :=
  | JNull
  | JBool (b : bool)
  | JNum (q : Q)
  | JStr (s : string)
  | JArr (items : list JSON)
  | JObj (fields : list (string * JSON)).

(** JavaScript truthiness, as [req.body || {}] tests it. *)
Definition truthy (v : JSON) : bool :=
  match v with
  | JNull => false
  | JBool b => b
  | JNum q => negb (Qeq_bool q 0)
  | JStr s => negb (String.eqb s "")
  | JArr _ | JObj _ => true
  end.

(** Reading a named property of a parsed body: [undefined] unless the value
    is an object that has the key. *)
Fixpoint assoc (key : string) (fields : list (string * JSON)) : option JSON :=
  match fields with
  | [] => None
  | (k, v) :: rest => if String.eqb k key then Some v else assoc key rest
  end.

Definition get_prop (v : JSON) (key : string) : option JSON :=
  match v with
  | JObj fields => assoc key fields
  | _ => None
  end.

(** A destructuring default [key = d]: used when the property is [undefined]. *)
Definition get_default (v : JSON) (key : string) (d : JSON) : JSON :=
  default d (get_prop v key).

(** [Array.isArray(x)] and [x.length], for a possibly [undefined] [x]. *)
Definition isArray (x : option JSON) : bool :=
  match x with Some (JArr _) => true | _ => false end.

Definition array_length (x : option JSON) : nat :=
  match x with Some (JArr items) => length items | _ => 0 end.

(** The arguments of [client.chat.completions.create] in the handler: the
    request's values, passed on as they came. *)
Record CreateArgs := mkCreateArgs {
  ca_model : JSON;
  ca_messages : option JSON;
  ca_temperature : JSON;
  ca_max_tokens : JSON
}.

Inductive ResponseBody : Type :=
  | ErrorBody (error : string) (details : option string)
  | ChatBody (reply : option string) (usage : Usage) (raw : Completion).

Record Response := mkResponse { status : nat; body : ResponseBody }.

(** [res.status(code).json(payload)], and [res.json(payload)] with the
    default status. *)
Definition res_status_json (code : nat) (payload : ResponseBody) : Response :=
  {| status := code; body := payload |}.

Definition res_json_ok (payload : ResponseBody) : Response :=
  {| status := 200; body := payload |}.

(** [req.body || {}] *)
Definition body_or_empty (req_body : option JSON) : JSON :=
  match req_body with
  | Some v => if truthy v then v else JObj []
  | None => JObj []
  end.

(** [choice.message?.content] *)
Definition choice_reply (choice : option Choice) : Outcome (option string) :=
  match choice with
  | Some c => Resolved (content <$> message c)
  | None => Rejected (type_error "Cannot read properties of undefined (reading 'message')")
  end.

Definition bad_request_message : string :=
  "messages array is required and must not be empty".

Definition chat_handler (node_env : option string) (req_body : option JSON)
    : Eff unit CreateArgs Completion Response :=
  try_catch
    (let b := body_or_empty req_body in
     let messages := get_prop b "messages" in
     let temperature := get_default b "temperature" (JNum (7 # 10)) in
     let max_tokens := get_default b "max_tokens" (JNum 256) in
     let model := get_default b "model" (JStr "gpt-4.1-mini") in
     if negb (isArray messages) || (array_length messages =? 0) then
       ret (res_status_json 400 (ErrorBody bad_request_message None))
     else
       let* completion :=
         await {| ca_model := model; ca_messages := messages;
                  ca_temperature := temperature; ca_max_tokens := max_tokens |} in
       let choice := choices completion !! 0 in
       let* reply := lift_outcome (choice_reply choice) in
       ret (res_json_ok (ChatBody reply (usage completion) completion)))
    (λ err,
       ret (res_status_json 500
              (ErrorBody "Something went wrong"
                 (if bool_decide (node_env = Some "development")
                  then Some (String_of_error err) else None)))).

(** ** Vocabulary of the properties *)

(** The pinned system message: the one [messages.find(m => m.role ===
    "system")] returns, as a list of at most one message. *)
Definition pinned (messages : list Message) : list Message :=
  option_list (find is_system messages).

(** The messages that are not system messages, in their order. *)
Definition non_system (messages : list Message) : list Message :=
  filter (λ m, is_system m = false) messages.

(** The newest message of a conversation, if any. *)
Definition newest (messages : list Message) : option Message := last messages.

(** What the specification asks of a reduced conversation [result] of [C]:
    within the budget, or exactly the newest message of [C]. *)
Definition within_budget_or_newest `{Encoding}
    (C result : list Message) (maxTokens : nat) : Prop :=
  total_tokens result ≤ maxTokens ∨ ∃ m, newest C = Some m ∧ result = [m].

(** What the specification asks of the newest message: the result is not
    empty and holds it. *)
Definition retains_newest (C result : list Message) : Prop :=
  result ≠ [] ∧ ∃ m, newest C = Some m ∧ m ∈ result.

(** What the specification asks of a turn that fails: the message list is
    as it was before the turn. *)
Definition left_unchanged_on_failure {Req A}
    (before : list Message) (r : Outcome A * list Message * list Req) : Prop :=
  ∀ e, outcome r = Rejected e → final_state r = before.

(** The completion call of a turn fails: [fetch] rejects, the status is not
    a success, or the body is not JSON. *)
Definition completion_call_fails (o : Outcome HttpResponse) : bool :=
  match o with
  | Rejected _ => true
  | Resolved res =>
      negb (res_ok res) || match res_json res with Rejected _ => true | Resolved _ => false end
  end.

(** The request a turn sends, given the message list before the turn. *)
Definition turn_request (port : option string) (messages : list Message)
    (userInput : string) : FetchRequest :=
  {| fr_url := API_URL port; fr_method := "POST";
     fr_body := {| fb_messages := (messages ++ [mkMessage "user" userInput])%list;
                   fb_temperature := 7 # 10; fb_max_tokens := 256 |} |}.

(** The old segment of the hybrid strategy: what lies between the pinned
    message and the recent window. *)
Definition old_segment (messages : list Message) (maxRecent : Z) : list Message :=
  slice messages (match find is_system messages with Some _ => 1 | None => 0 end)%Z
    (- maxRecent).

(** What the specification asks of a reduction: it returns a result. *)
Definition returns_a_result {S Req A} (r : Outcome A * S * list Req) : Prop :=
  ∃ result, outcome r = Resolved result.

(** What the specification asks of a pure reduction: the same result
    whatever the outside world does, and no request to it. *)
Definition pure_and_deterministic {A} (f : Eff unit ChatRequest Completion A) : Prop :=
  ∀ srv1 srv2, f srv1 tt = f srv2 tt ∧ requests (f srv1 tt) = [].

(** A value that is an array with at least one element. *)
Definition non_empty_array (x : option JSON) : bool :=
  match x with
  | Some (JArr (_ :: _)) => true
  | _ => false
  end.

(** The arguments the handler passes to the provider for a body. *)
Definition create_args (req_body : option JSON) : CreateArgs :=
  let b := body_or_empty req_body in
  {| ca_model := get_default b "model" (JStr "gpt-4.1-mini");
     ca_messages := get_prop b "messages";
     ca_temperature := get_default b "temperature" (JNum (7 # 10));
     ca_max_tokens := get_default b "max_tokens" (JNum 256) |}.

(** The lines of the user that start a turn: those before the first
    [exit] that are not blank. *)
Fixpoint accepted_inputs (trim toLowerCase : string → string)
    (inputs : list string) : list string :=
  match inputs with
  | [] => []
  | userInput :: rest =>
      if String.eqb (trim userInput) "" then accepted_inputs trim toLowerCase rest
      else if String.eqb (toLowerCase userInput) "exit" then []
      else userInput :: accepted_inputs trim toLowerCase rest
  end.

(** The user messages of a history, by their content. *)
Definition user_contents (messages : list Message) : list string :=
  content <$> filter (λ m, role m = "user") messages.

(** ** Sample conversations *)

(** A text of [n] characters: [n] tokens for [char_encoding]. *)
Fixpoint text (n : nat) : string :=
  match n with
  | 0 => ""
  | S k => String (Ascii.ascii_of_nat 120) (text k)
  end.

Definition sys_msg (n : nat) : Message := mkMessage "system" (text n).
Definition user_msg (n : nat) : Message := mkMessage "user" (text n).
Definition assistant_msg (n : nat) : Message := mkMessage "assistant" (text n).

(** Fifty messages of 100 tokens each, user and assistant in turn. *)
Definition fifty_messages : list Message :=
  (λ i, if Nat.even i then user_msg 100 else assistant_msg 100) <$> seq 0 50.

(** A provider that answers every request with the text [answer]. *)
Definition provider_says (answer : string) : Service ChatRequest Completion :=
  λ _, Resolved (mkCompletion [mkChoice (Some (mkMessage "assistant" answer))]
                   (mkUsage 0 0 0)).

(** A provider that cannot be reached. *)
Definition provider_down : Service ChatRequest Completion :=
  λ _, Rejected (mkError "Error" "Connection error.").

(** A server that answers every turn with status 500. *)
Definition server_error : Service FetchRequest HttpResponse :=
  λ _, Resolved (mkHttpResponse false 500 "{}"
                   (Resolved (mkReplyData None))).

(** A server that answers every turn with the reply [answer]. *)
Definition server_replies (answer : string) : Service FetchRequest HttpResponse :=
  λ _, Resolved (mkHttpResponse true 200 "" (Resolved (mkReplyData (Some answer)))).

(** A provider of the server's that answers with one choice. *)
Definition completion_says (answer : string) : Service CreateArgs Completion :=
  λ _, Resolved (mkCompletion [mkChoice (Some (mkMessage "assistant" answer))]
                   (mkUsage 0 0 0)).

(** [trim] and [toLowerCase] on texts of ASCII characters. *)
Definition is_space (c : Ascii.ascii) : bool :=
  let n := Ascii.nat_of_ascii c in (n =? 32) || ((9 <=? n) && (n <=? 13)).

Fixpoint trim_start (s : string) : string :=
  match s with
  | String c rest => if is_space c then trim_start rest else s
  | EmptyString => EmptyString
  end.

Definition ascii_trim (s : string) : string :=
  String.rev (trim_start (String.rev (trim_start s))).

Definition ascii_lower (c : Ascii.ascii) : Ascii.ascii :=
  let n := Ascii.nat_of_ascii c in
  if (65 <=? n) && (n <=? 90) then Ascii.ascii_of_nat (n + 32) else c.

Fixpoint ascii_toLowerCase (s : string) : string :=
  match s with
  | String c rest => String (ascii_lower c) (ascii_toLowerCase rest)
  | EmptyString => EmptyString
  end.

(** A server that fails every turn whose newest message is [bad] and
    answers every other turn with [answer]. *)
Definition server_fails_on (bad answer : string) : Service FetchRequest HttpResponse :=
  λ req,
    match last (fb_messages (fr_body req)) with
    | Some m => if String.eqb (content m) bad then server_error req
                else server_replies answer req
    | None => server_replies answer req
    end.

(** An [estimateTokens] to run the hybrid strategy with: the token total
    under [char_encoding]. *)
Definition estimate_by_chars : list Message → nat := total_tokens (H := char_encoding).

(** * Properties *)

(** ** The loop of [truncateByTokens] *)

Section WalkFacts.
Context `{Encoding}.
Implicit Types (l kept : list Message) (t maxTokens : nat).

Lemma total_tokens_app l k :
  total_tokens (l ++ k) = total_tokens l + total_tokens k.
Proof. apply sum_list_with_app. Qed.

Lemma total_tokens_cons m l : total_tokens (m :: l) = tokens m + total_tokens l.
Proof. reflexivity. Qed.

Lemma total_tokens_singleton m : total_tokens [m] = tokens m.
Proof. unfold total_tokens. simpl. lia. Qed.

(** The loop only ever adds in front of [result]. *)
Lemma walk_result maxTokens l t r :
  walk maxTokens l t r = (walk maxTokens l t [] ++ r)%list.
Proof.
  revert t r. induction l as [|m l IH]; intros t r; simpl; [done|].
  destruct (is_system m); [apply IH|].
  destruct (maxTokens <? t + tokens m); [done|].
  rewrite (IH _ [m]), (IH _ (m :: r)), <- app_assoc. done.
Qed.

(** Once the running total is over the limit nothing more is added. *)
Lemma walk_over maxTokens l t r : maxTokens < t → walk maxTokens l t r = r.
Proof.
  intros Ht. induction l as [|m l IH]; simpl; [done|].
  destruct (is_system m); [done|].
  destruct (Nat.ltb_spec maxTokens (t + tokens m)); [done | lia].
Qed.

(** No system message is added by the loop. *)
Lemma walk_non_system maxTokens l t :
  Forall (λ m, is_system m = false) (walk maxTokens l t []).
Proof.
  revert t. induction l as [|m l IH]; intros t; simpl; [constructor|].
  destruct (is_system m) eqn:Hm; [apply IH|].
  destruct (maxTokens <? t + tokens m); [constructor|].
  rewrite walk_result. apply Forall_app. split; [apply IH|]. by constructor.
Qed.

(** What the loop keeps stays within the limit. *)
Lemma walk_total maxTokens l t :
  t ≤ maxTokens → t + total_tokens (walk maxTokens l t []) ≤ maxTokens.
Proof.
  revert t. induction l as [|m l IH]; intros t Ht; simpl.
  - unfold total_tokens. simpl. lia.
  - destruct (is_system m); [by apply IH|].
    destruct (Nat.ltb_spec maxTokens (t + tokens m)) as [Hlt|Hle].
    + unfold total_tokens. simpl. lia.
    + rewrite walk_result, total_tokens_app.
      specialize (IH _ Hle). unfold total_tokens at 2. simpl. lia.
Qed.

(** The loop keeps a suffix of the non-system messages, and the message
    just before that suffix is one whose tokens would take the total
    strictly over the limit. *)
Lemma walk_split maxTokens l t :
  ∃ rest,
    non_system l = (reverse (walk maxTokens l t []) ++ rest)%list ∧
    ∀ m rest', rest = m :: rest' →
      maxTokens < t + total_tokens (walk maxTokens l t []) + tokens m.
Proof.
  revert t. induction l as [|m l IH]; intros t; simpl.
  - exists []. split; [done|]. discriminate.
  - unfold non_system. rewrite filter_cons.
    destruct (is_system m) eqn:Hm.
    + destruct (decide (true = false)) as [|_]; [done|]. apply IH.
    + destruct (decide (false = false)) as [_|]; [|done].
      destruct (Nat.ltb_spec maxTokens (t + tokens m)) as [Hlt|Hle].
      * exists (m :: filter (λ m, is_system m = false) l). split; [done|].
        intros m' rest' [= <- _]. unfold total_tokens. simpl. lia.
      * destruct (IH (t + tokens m)) as (rest & Hsplit & Hnext).
        exists rest. rewrite walk_result, reverse_app. split.
        { simpl. f_equal. apply Hsplit. }
        intros m' rest' ->. specialize (Hnext _ _ eq_refl).
        rewrite total_tokens_app. unfold total_tokens at 2. simpl. lia.
Qed.

(** Walking again over what was kept keeps all of it. *)
Lemma walk_again maxTokens l t r :
  walk maxTokens (reverse (walk maxTokens l t [])) t r
  = (walk maxTokens l t [] ++ r)%list.
Proof.
  revert t r. induction l as [|m l IH]; intros t r; simpl; [done|].
  destruct (is_system m) eqn:Hm; [apply IH|].
  destruct (Nat.ltb_spec maxTokens (t + tokens m)) as [Hlt|Hle]; [done|].
  rewrite (walk_result _ l _ [m]), reverse_snoc. simpl. rewrite Hm.
  destruct (Nat.ltb_spec maxTokens (t + tokens m)); [lia|].
  rewrite IH, <- app_assoc. done.
Qed.
End WalkFacts.

(** ** [truncateByTokens] as a whole *)

Section TruncateByTokensFacts.
Context `{Encoding}.
Implicit Types (messages kept dropped : list Message) (maxTokens : nat).

Lemma is_system_pinned messages s : find is_system messages = Some s → is_system s = true.
Proof. intros Hs. by apply find_some in Hs as [_ ?]. Qed.

Lemma pinned_none messages :
  Forall (λ m, is_system m = false) messages → find is_system messages = None.
Proof.
  induction 1 as [|m l Hm _ IH]; simpl; [done|]. unfold find in *. simpl. by rewrite Hm.
Qed.

Lemma pinned_snoc messages m :
  is_system m = false → pinned (messages ++ [m]) = pinned messages.
Proof.
  intros Hm. unfold pinned, find. f_equal.
  induction messages as [|x l IH]; simpl; [by rewrite Hm|].
  by destruct (is_system x).
Qed.

Lemma non_system_all messages :
  Forall (λ m, is_system m = false) messages → non_system messages = messages.
Proof.
  induction 1 as [|m l Hm _ IH]; [done|].
  unfold non_system in *. by rewrite filter_cons_True, IH.
Qed.

(** The result is what the loop kept, followed by the pinned message. *)
Lemma truncateByTokens_shape messages maxTokens :
  truncateByTokens messages maxTokens
  = (walk maxTokens (reverse messages) (total_tokens (pinned messages)) []
     ++ pinned messages)%list.
Proof.
  unfold truncateByTokens, pinned. destruct (find is_system messages) as [s|]; simpl.
  - rewrite walk_result. unfold total_tokens. simpl. by rewrite Nat.add_0_r.
  - by rewrite app_nil_r.
Qed.

Lemma truncateByTokens_split messages maxTokens :
  ∃ dropped kept,
    non_system messages = (dropped ++ kept)%list ∧
    truncateByTokens messages maxTokens = (kept ++ pinned messages)%list ∧
    (kept ≠ [] → total_tokens (pinned messages) + total_tokens kept ≤ maxTokens) ∧
    (∀ older m, dropped = (older ++ [m])%list →
       maxTokens < total_tokens (pinned messages) + tokens m + total_tokens kept).
Proof.
  set (t0 := total_tokens (pinned messages)).
  destruct (walk_split maxTokens (reverse messages) t0) as (rest & Hsplit & Hnext).
  exists (reverse rest), (walk maxTokens (reverse messages) t0 []).
  split; [|split; [|split]].
  - unfold non_system in *. rewrite filter_reverse in Hsplit.
    apply (f_equal reverse) in Hsplit.
    by rewrite reverse_involutive, reverse_app, reverse_involutive in Hsplit.
  - apply truncateByTokens_shape.
  - intros Hkept. destruct (Nat.le_gt_cases t0 maxTokens) as [Hle|Hgt].
    + by apply walk_total.
    + by rewrite walk_over in Hkept.
  - intros older m Hd. apply (f_equal reverse) in Hd.
    rewrite reverse_involutive, reverse_snoc in Hd.
    specialize (Hnext _ _ Hd). lia.
Qed.

(** Every suffix of the non-system messages that fits the limit together
    with the pinned message is kept whole. *)
Lemma truncateByTokens_keeps_fitting_suffix messages maxTokens dropped kept s :
  non_system messages = (dropped ++ kept)%list →
  (∀ older m, dropped = (older ++ [m])%list →
     maxTokens < total_tokens (pinned messages) + tokens m + total_tokens kept) →
  s `suffix_of` non_system messages →
  total_tokens (pinned messages) + total_tokens s ≤ maxTokens →
  s `suffix_of` kept.
Proof.
  intros Hns Hnext Hs Hfit.
  assert (Hkept : kept `suffix_of` non_system messages).
  { rewrite Hns. by apply suffix_app_r. }
  destruct (suffix_weak_total s kept _ Hs Hkept) as [|[k Hk]]; [done|].
  destruct (decide (k = [])) as [->|Hne]; [by rewrite Hk|].
  destruct (exists_last Hne) as (k' & x & ->). exfalso.
  destruct Hs as [pre Hpre]. rewrite Hk, Hns in Hpre.
  rewrite !app_assoc in Hpre. apply app_inv_tail in Hpre.
  specialize (Hnext (pre ++ k')%list x). rewrite Hpre in Hnext.
  specialize (Hnext eq_refl).
  rewrite Hk, !total_tokens_app in Hfit. unfold total_tokens at 3 in Hfit.
  simpl in Hfit. lia.
Qed.

Lemma total_tokens_uniform w l :
  Forall (λ m, tokens m = w) l → total_tokens l = w * length l.
Proof.
  induction 1 as [|m l Hm _ IH]; [simpl; unfold total_tokens; simpl; lia|].
  rewrite total_tokens_cons, IH, Hm. simpl. lia.
Qed.
End TruncateByTokensFacts.

(** ** Token budget of the result *)

Section Budget.
Context `{Encoding}.
Implicit Types (messages : list Message) (maxTokens : nat).

(** The result of [truncateByTokens] fits the limit unless the pinned
    system message alone is over it, in which case the result is that
    message and nothing else. *)
Lemma truncateByTokens_within_budget messages maxTokens :
  total_tokens (truncateByTokens messages maxTokens) ≤ maxTokens ∨
  ∃ s, find is_system messages = Some s ∧ maxTokens < tokens s ∧
       truncateByTokens messages maxTokens = [s].
Proof.
  rewrite truncateByTokens_shape. unfold pinned.
  destruct (find is_system messages) as [s|] eqn:Hs; cbn [option_list option_rect].
  - rewrite total_tokens_singleton.
    destruct (Nat.le_gt_cases (tokens s) maxTokens) as [Hle|Hgt].
    + left. rewrite total_tokens_app, total_tokens_singleton.
      pose proof (walk_total maxTokens (reverse messages) _ Hle). lia.
    + right. exists s. by rewrite walk_over.
  - left. rewrite app_nil_r.
    apply (walk_total maxTokens (reverse messages) 0), Nat.le_0_l.
Qed.

(** X6: [truncateByTokens] is idempotent: applied with the same limit to its
    own result, it returns that result. *)
Lemma truncateByTokens_idempotent messages maxTokens :
  truncateByTokens (truncateByTokens messages maxTokens) maxTokens
  = truncateByTokens messages maxTokens.
Proof.
  rewrite (truncateByTokens_shape messages).
  set (t0 := total_tokens (pinned messages)).
  set (kept := walk maxTokens (reverse messages) t0 []).
  assert (Hkept : Forall (λ m, is_system m = false) kept) by apply walk_non_system.
  assert (Hfind : ∀ l, find is_system (kept ++ l)%list = find is_system l).
  { intros l. induction Hkept as [|m k Hm _ IH]; [done|].
    unfold find in *. simpl. by rewrite Hm. }
  unfold truncateByTokens. rewrite Hfind. subst kept t0. unfold pinned.
  destruct (find is_system messages) as [s|] eqn:Hs; cbn [option_list option_rect].
  - rewrite total_tokens_singleton. unfold find. cbn [List.find].
    rewrite (is_system_pinned _ _ Hs), reverse_snoc. cbn [walk].
    rewrite (is_system_pinned _ _ Hs). apply walk_again.
  - rewrite app_nil_r. unfold find. cbn [List.find]. change (total_tokens []) with 0.
    rewrite walk_again. by rewrite app_nil_r.
Qed.
End Budget.

(** ** Strategy B: the token walk *)

(** C4: the token-based truncation walks the messages from newest to oldest,
    starting from the pinned message's tokens: what it keeps is a suffix of
    the non-system messages that fits the limit, the message just before
    that suffix is one that would take the total strictly over the limit,
    and a message whose inclusion lands exactly on the limit is kept.  For
    50 messages of 100 tokens each, none of them a system message, and a
    limit of 450, the result is the newest 4 messages. *)
Theorem truncateByTokens_walks_newest_first `{Encoding}
    (messages : list Message) (maxTokens : nat) :
  (∃ dropped kept,
     non_system messages = (dropped ++ kept)%list ∧
     truncateByTokens messages maxTokens = (kept ++ pinned messages)%list ∧
     (kept ≠ [] → total_tokens (pinned messages) + total_tokens kept ≤ maxTokens) ∧
     (∀ older m, dropped = (older ++ [m])%list →
        maxTokens < total_tokens (pinned messages) + tokens m + total_tokens kept) ∧
     (∀ older m newer, non_system messages = (older ++ m :: newer)%list →
        total_tokens (pinned messages) + tokens m + total_tokens newer = maxTokens →
        m ∈ kept)) ∧
  (length messages = 50 →
   Forall (λ m, is_system m = false ∧ tokens m = 100) messages →
   maxTokens = 450 →
   truncateByTokens messages maxTokens = drop 46 messages).
Proof.
  destruct (truncateByTokens_split messages maxTokens)
    as (dropped & kept & Hns & Hres & Hfit & Hnext).
  split.
  - exists dropped, kept. repeat split; try done.
    intros older m newer Holder Htie.
    assert (Hsuf : (m :: newer) `suffix_of` kept).
    { eapply truncateByTokens_keeps_fitting_suffix; [done..| |].
      - rewrite Holder. by exists older.
      - rewrite total_tokens_cons. lia. }
    destruct Hsuf as [pre ->]. rewrite elem_of_app, elem_of_cons. tauto.
  - intros Hlen Hall ->.
    assert (Hnonsys : Forall (λ m, is_system m = false) messages).
    { eapply Forall_impl; [exact Hall|]. by intros ? [? _]. }
    assert (Htok : Forall (λ m, tokens m = 100) messages).
    { eapply Forall_impl; [exact Hall|]. by intros ? [_ ?]. }
    rewrite non_system_all in Hns by done.
    unfold pinned in *. rewrite pinned_none in * by done.
    cbn [option_list option_rect] in *. change (total_tokens []) with 0 in *.
    rewrite app_nil_r in Hres. rewrite Hres.
    assert (Hkept : total_tokens kept = 100 * length kept).
    { apply total_tokens_uniform. rewrite Hns in Htok. by apply Forall_app in Htok as [_ ?]. }
    assert (Hlen' : length dropped + length kept = 50).
    { by rewrite <- Hlen, Hns, length_app. }
    assert (Hk : length kept = 4).
    { destruct (decide (kept = [])) as [->|Hne].
      - destruct dropped as [|d ds] using rev_ind; [simpl in *; lia|].
        specialize (Hnext _ _ eq_refl).
        assert (tokens d = 100).
        { rewrite Hns in Htok. apply Forall_app in Htok as [Htok _].
          apply Forall_app in Htok as [_ Htok]. by inversion Htok. }
        simpl in *. lia.
      - specialize (Hfit Hne).
        destruct dropped as [|d ds _] using rev_ind; [simpl in *; lia|].
        specialize (Hnext _ _ eq_refl).
        assert (tokens d = 100).
        { rewrite Hns in Htok. apply Forall_app in Htok as [Htok _].
          apply Forall_app in Htok as [_ Htok]. by inversion Htok. }
        lia. }
    rewrite Hns. rewrite drop_app_length'; [done | lia].
Qed.

(** Witness of C4: the fifty-message scenario, one token per character. *)
Lemma truncateByTokens_walks_newest_first_witness :
  truncateByTokens (H := char_encoding) fifty_messages 450
  = [user_msg 100; assistant_msg 100; user_msg 100; assistant_msg 100].
Proof.
  rewrite (proj2 (truncateByTokens_walks_newest_first (H := char_encoding)
                    fifty_messages 450)).
  - vm_compute. reflexivity.
  - vm_compute. reflexivity.
  - unfold fifty_messages. apply Forall_fmap, Forall_forall. intros i _.
    unfold compose. destruct (Nat.even i); split; vm_compute; reflexivity.
  - reflexivity.
Defined.

(** ** The budget and the newest message *)

(** C1 (as amended): the messages [truncateByTokens] returns total at most
    [maxTokens] tokens, or else the pinned system message alone is over the
    limit and the result is exactly that message; [smartContextManagement]
    returns the conversation as it is when its estimate is below the limit. *)
Theorem reduce_within_budget_or_pinned_alone `{Encoding}
    (estimateTokens : list Message → nat) (messages : list Message)
    (maxRecent : Z) (maxTokens : nat) (srv : Service ChatRequest Completion) :
  (total_tokens (truncateByTokens messages maxTokens) ≤ maxTokens ∨
   ∃ s, find is_system messages = Some s ∧ maxTokens < tokens s ∧
        truncateByTokens messages maxTokens = [s]) ∧
  (estimateTokens messages < maxTokens →
   smartContextManagement estimateTokens messages maxRecent maxTokens srv tt
   = (Resolved messages, tt, [])).
Proof.
  split; [apply truncateByTokens_within_budget|].
  intros Hlt. unfold smartContextManagement.
  by destruct (Nat.ltb_spec (estimateTokens messages) maxTokens); [|lia].
Qed.

(** Witness of C1: a conversation of 30 tokens under a limit of 100. *)
Lemma reduce_within_budget_or_pinned_alone_witness :
  total_tokens (H := char_encoding)
    (truncateByTokens (H := char_encoding) [sys_msg 4; user_msg 20; assistant_msg 6] 100)
  ≤ 100 ∧
  smartContextManagement estimate_by_chars [sys_msg 4; user_msg 20; assistant_msg 6]
    2 100 provider_down tt
  = (Resolved [sys_msg 4; user_msg 20; assistant_msg 6], tt, []).
Proof.
  destruct (reduce_within_budget_or_pinned_alone (H := char_encoding) estimate_by_chars
              [sys_msg 4; user_msg 20; assistant_msg 6] 2 100 provider_down)
    as [Hbudget Hsame].
  split.
  - vm_compute. lia.
  - apply Hsame. vm_compute. lia.
Defined.

(** C1, as stated, fails: with a pinned system message of 30 tokens, a newer
    user message and a limit of 10, [truncateByTokens] returns the system
    message alone (30 tokens, and not the newest message); and the hybrid
    strategy returns pinned message, summary and recent window whatever
    their tokens. *)
Lemma reduce_within_budget_counterexample :
  ¬ within_budget_or_newest (H := char_encoding)
      [sys_msg 30; user_msg 5]
      (truncateByTokens (H := char_encoding) [sys_msg 30; user_msg 5] 10) 10
  ∧ ∃ result,
      outcome (smartContextManagement estimate_by_chars
                 [sys_msg 5; user_msg 20; assistant_msg 20; user_msg 20] 2 30
                 (provider_says (text 10)) tt) = Resolved result ∧
      ¬ within_budget_or_newest (H := char_encoding)
          [sys_msg 5; user_msg 20; assistant_msg 20; user_msg 20] result 30.
Proof.
  split.
  - intros [Hle | (m & Hm & Hres)].
    + vm_compute in Hle. lia.
    + vm_compute in Hm, Hres. congruence.
  - eexists. split; [vm_compute; reflexivity|].
    intros [Hle | (m & Hm & Hres)].
    + vm_compute in Hle. lia.
    + vm_compute in Hres. discriminate.
Qed.

(** C2 (as amended): when the newest message is not a system message,
    [truncateByTokens] keeps it, as the last message before the pinned one,
    exactly when its tokens fit the limit together with the pinned
    message's; when they do not, the result is the pinned message alone, or
    empty when there is none. *)
Theorem truncateByTokens_newest_kept_when_it_fits `{Encoding}
    (older : list Message) (m : Message) (maxTokens : nat) :
  is_system m = false →
  ∃ kept, truncateByTokens (older ++ [m]) maxTokens
          = ((if bool_decide (total_tokens (pinned older) + tokens m ≤ maxTokens)
              then kept ++ [m] else []) ++ pinned older)%list.
Proof.
  intros Hm. rewrite truncateByTokens_shape, pinned_snoc, reverse_snoc by done.
  cbn [walk]. rewrite Hm.
  destruct (Nat.ltb_spec maxTokens (total_tokens (pinned older) + tokens m)).
  - exists []. by rewrite bool_decide_eq_false_2 by lia.
  - rewrite bool_decide_eq_true_2 by lia. rewrite walk_result. by eexists.
Qed.

(** Witness of C2: a newest message of 6 tokens after a pinned message of 4,
    under a limit of 10. *)
Lemma truncateByTokens_newest_kept_when_it_fits_witness :
  ∃ kept, truncateByTokens (H := char_encoding) ([sys_msg 4; user_msg 9] ++ [user_msg 6]) 10
          = ((if bool_decide (total_tokens (H := char_encoding) (pinned [sys_msg 4; user_msg 9])
                              + tokens (H := char_encoding) (user_msg 6) ≤ 10)
              then kept ++ [user_msg 6] else []) ++ pinned [sys_msg 4; user_msg 9])%list.
Proof.
  apply (truncateByTokens_newest_kept_when_it_fits (H := char_encoding)
           [sys_msg 4; user_msg 9] (user_msg 6) 10).
  reflexivity.
Defined.

(** C2, as stated, fails: a single message of 5000 tokens under a limit of
    1000 gives the empty result. *)
Lemma truncateByTokens_newest_counterexample :
  truncateByTokens (H := char_encoding) [user_msg 5000] 1000 = [] ∧
  ¬ retains_newest [user_msg 5000]
      (truncateByTokens (H := char_encoding) [user_msg 5000] 1000).
Proof.
  assert (Hres : truncateByTokens (H := char_encoding) [user_msg 5000] 1000 = [])
    by (vm_compute; reflexivity).
  split; [exact Hres|]. rewrite Hres. by intros [? _].
Qed.

(** ** System messages in the result *)

(** C10: the result of [truncateByTokens] holds at most one system message,
    the first one of the input: the walk adds no system message, whatever
    the limit. *)
Theorem truncateByTokens_at_most_one_system `{Encoding}
    (messages : list Message) (maxTokens : nat) :
  filter (λ m, is_system m = true) (truncateByTokens messages maxTokens)
  = pinned messages ∧
  length (filter (λ m, is_system m = true) (truncateByTokens messages maxTokens)) ≤ 1 ∧
  ∃ kept, truncateByTokens messages maxTokens = (kept ++ pinned messages)%list ∧
          Forall (λ m, is_system m = false) kept.
Proof.
  assert (Hfilter : filter (λ m, is_system m = true) (truncateByTokens messages maxTokens)
                    = pinned messages).
  { rewrite truncateByTokens_shape, filter_app.
    pose proof (walk_non_system maxTokens (reverse messages)
                  (total_tokens (pinned messages))) as Hkept.
    induction Hkept as [|m k Hm _ IH]; simpl.
    - unfold pinned. destruct (find is_system messages) as [s|] eqn:Hs; [|done].
      cbn [option_list option_rect].
      by rewrite filter_cons_True by (by eapply is_system_pinned).
    - rewrite filter_cons_False by congruence. exact IH. }
  split; [exact Hfilter|]. split.
  - rewrite Hfilter. unfold pinned. destruct (find is_system messages); simpl; lia.
  - eexists. split; [apply truncateByTokens_shape | apply walk_non_system].
Qed.

(** X7: the pinned message is kept whatever the limit, and it comes last:
    the walk puts every message it keeps in front of it. *)
Lemma truncateByTokens_pinned_last `{Encoding}
    (messages : list Message) (maxTokens : nat) (s : Message) :
  find is_system messages = Some s →
  last (truncateByTokens messages maxTokens) = Some s.
Proof.
  intros Hs. rewrite truncateByTokens_shape. unfold pinned. rewrite Hs.
  cbn [option_list option_rect]. apply last_snoc.
Qed.

(** C6: the code breaks the claim at the conversation [system; user].  With
    room for both, [truncateByTokens] returns the user message first and the
    pinned system message last; and [truncateMessages], whose window of 20
    covers the whole conversation, returns the pinned system message
    twice. *)
Theorem pinned_system_message_misplaced_or_repeated :
  truncateByTokens (H := char_encoding) [sys_msg 4; user_msg 6] 100
  = [user_msg 6; sys_msg 4] ∧
  truncateMessages [sys_msg 4; user_msg 6] 20
  = [sys_msg 4; sys_msg 4; user_msg 6].
Proof. split; vm_compute; reflexivity. Qed.

(** ** Reducing twice *)

(** C7: the code breaks the claim at the conversation [system; user] with a
    window of 20: every application of [truncateMessages] puts one more copy
    of the system message in front. *)
Theorem truncateMessages_not_idempotent :
  truncateMessages [sys_msg 4; user_msg 6] 20 = [sys_msg 4; sys_msg 4; user_msg 6] ∧
  truncateMessages (truncateMessages [sys_msg 4; user_msg 6] 20) 20
  = [sys_msg 4; sys_msg 4; sys_msg 4; user_msg 6] ∧
  truncateMessages (truncateMessages [sys_msg 4; user_msg 6] 20) 20
  ≠ truncateMessages [sys_msg 4; user_msg 6] 20.
Proof. repeat split; vm_compute; congruence. Qed.

(** ** A turn of the terminal client *)

(** C3 (as amended): a turn sends one request, which already holds the user
    message.  When the completion call fails the turn ends in an error and
    the message list is the one before the turn with the user message
    appended; when it succeeds, the user message and the assistant's reply
    are appended. *)
Theorem callChatEndpoint_appends_user_message_first
    (port : option string) (userInput : string)
    (srv : Service FetchRequest HttpResponse) (messages : list Message) :
  let r := callChatEndpoint port userInput srv messages in
  requests r = [turn_request port messages userInput] ∧
  if completion_call_fails (srv (turn_request port messages userInput))
  then (∃ e, outcome r = Rejected e) ∧
       final_state r = (messages ++ [mkMessage "user" userInput])%list
  else ∃ reply, outcome r = Resolved reply ∧
       final_state r = (messages ++ [mkMessage "user" userInput;
                                      mkMessage "assistant" reply])%list.
Proof.
  unfold callChatEndpoint, turn_request, completion_call_fails,
    outcome, final_state, requests, bind, push, modify_state, get_state, await.
  cbn.
  destruct (srv _) as [[ok st txt js]|e]; cbn.
  - destruct ok; cbn.
    + destruct js as [data|e]; cbn.
      * split; [done|]. eexists. split; [done|]. by rewrite <- app_assoc.
      * split; [done|]. split; [by eexists | done].
    + split; [done|]. split; [by eexists | done].
  - split; [done|]. split; [by eexists | done].
Qed.

(** C3, as stated, fails: a turn that the server answers with status 500
    ends in an error and leaves the user message in the list. *)
Lemma callChatEndpoint_failure_counterexample :
  final_state (callChatEndpoint None "hi" server_error initial_messages)
  = (initial_messages ++ [mkMessage "user" "hi"])%list ∧
  ¬ left_unchanged_on_failure initial_messages
      (callChatEndpoint None "hi" server_error initial_messages).
Proof.
  split; [vm_compute; reflexivity|].
  intros Hsame. specialize (Hsame _ eq_refl). vm_compute in Hsame. discriminate.
Qed.

(** ** Summarization and the provider *)

Lemma smartContextManagement_over_limit (estimateTokens : list Message → nat)
    (messages : list Message) (maxRecent : Z) (maxTokens : nat)
    (srv : Service ChatRequest Completion) :
  maxTokens ≤ estimateTokens messages →
  smartContextManagement estimateTokens messages maxRecent maxTokens srv tt
  = (if 0 <? length (old_segment messages maxRecent)
     then let* summary := summarizeOldMessages (old_segment messages maxRecent) in
          ret (opt_cons (find is_system messages)
                 (summary :: slice_from messages (- maxRecent)))
     else ret (opt_cons (find is_system messages) (slice_from messages (- maxRecent))))
      srv tt.
Proof.
  intros Hle. unfold smartContextManagement.
  by destruct (Nat.ltb_spec (estimateTokens messages) maxTokens); [lia|].
Qed.

(** C5 (as amended): when the estimate is not below the limit and the old
    segment is not empty, a failure of the summarization request is the
    outcome of [smartContextManagement]: the error reaches the caller, after
    that one request, and no truncation takes its place. *)
Theorem smartContextManagement_summarize_failure_propagates
    (estimateTokens : list Message → nat) (messages : list Message)
    (maxRecent : Z) (maxTokens : nat) (srv : Service ChatRequest Completion)
    (e : Error) :
  maxTokens ≤ estimateTokens messages →
  old_segment messages maxRecent ≠ [] →
  srv (summary_request (old_segment messages maxRecent)) = Rejected e →
  smartContextManagement estimateTokens messages maxRecent maxTokens srv tt
  = (Rejected e, tt, [summary_request (old_segment messages maxRecent)]).
Proof.
  intros Hle Hold Hfail. rewrite smartContextManagement_over_limit by done.
  destruct (old_segment messages maxRecent) as [|m old] eqn:Hseg; [done|].
  cbn [length Nat.ltb Nat.leb]. unfold summarizeOldMessages, bind, await.
  by rewrite Hfail.
Qed.

(** Witness of C5: four messages over a limit of 30, a window of 2, and a
    provider that cannot be reached. *)
Lemma smartContextManagement_summarize_failure_propagates_witness :
  smartContextManagement estimate_by_chars
    [sys_msg 5; user_msg 20; assistant_msg 20; user_msg 20] 2 30 provider_down tt
  = (Rejected (mkError "Error" "Connection error."), tt,
     [summary_request
        (old_segment [sys_msg 5; user_msg 20; assistant_msg 20; user_msg 20] 2)]).
Proof.
  apply (smartContextManagement_summarize_failure_propagates estimate_by_chars
           [sys_msg 5; user_msg 20; assistant_msg 20; user_msg 20] 2 30 provider_down).
  - vm_compute. lia.
  - vm_compute. discriminate.
  - reflexivity.
Defined.

(** C5, as stated, fails: with a provider that cannot be reached, the
    reduction of a conversation whose old segment is [user_msg 20] returns
    no result. *)
Lemma smartContextManagement_fallback_counterexample :
  old_segment [sys_msg 5; user_msg 20; assistant_msg 20; user_msg 20] 2 = [user_msg 20] ∧
  ¬ returns_a_result
      (smartContextManagement estimate_by_chars
         [sys_msg 5; user_msg 20; assistant_msg 20; user_msg 20] 2 30 provider_down tt).
Proof.
  split; [vm_compute; reflexivity|].
  intros [result Hres]. vm_compute in Hres. discriminate.
Qed.

(** The token counts decide the result of [truncateByTokens]: two
    tokenizers that agree on the length of every message of the
    conversation give the same result. *)
Lemma walk_tokens_ext (enc1 enc2 : Encoding) (maxTokens : nat)
    (l : list Message) (t : nat) (r : list Message) :
  (∀ m, m ∈ l → tokens (H := enc1) m = tokens (H := enc2) m) →
  walk (H := enc1) maxTokens l t r = walk (H := enc2) maxTokens l t r.
Proof.
  revert t r. induction l as [|m l IH]; intros t r Hagree; simpl; [done|].
  rewrite (Hagree m) by apply list_elem_of_here.
  destruct (is_system m); [|destruct (_ <? _); [done|]];
    apply IH; intros; apply Hagree; by apply list_elem_of_further.
Qed.

(** C8 (as amended): the result of [truncateByTokens] is a function of the
    conversation, the limit and the token counts of its messages alone.
    [smartContextManagement] sends no request to the provider when its
    estimate is below the limit or the old segment is empty, and its result
    is then the same whatever the provider does; otherwise it sends exactly
    the summarization request, and two runs agree as soon as the provider
    answers that request the same way. *)
Theorem reduce_determined_by_inputs_and_provider
    (enc1 enc2 : Encoding) (estimateTokens : list Message → nat)
    (messages : list Message) (maxRecent : Z) (maxTokens : nat)
    (srv1 srv2 : Service ChatRequest Completion) :
  let old := old_segment messages maxRecent in
  let run := λ srv, smartContextManagement estimateTokens messages maxRecent maxTokens srv tt in
  ((∀ m, m ∈ messages → tokens (H := enc1) m = tokens (H := enc2) m) →
   truncateByTokens (H := enc1) messages maxTokens
   = truncateByTokens (H := enc2) messages maxTokens) ∧
  (estimateTokens messages < maxTokens ∨ old = [] →
   requests (run srv1) = [] ∧ run srv1 = run srv2) ∧
  (maxTokens ≤ estimateTokens messages → old ≠ [] →
   requests (run srv1) = [summary_request old]) ∧
  (srv1 (summary_request old) = srv2 (summary_request old) → run srv1 = run srv2).
Proof.
  intros old run. subst run. cbn beta. split; [|split; [|split]].
  - intros Hagree. unfold truncateByTokens.
    destruct (find is_system messages) as [s|] eqn:Hs.
    + rewrite (Hagree s).
      * apply walk_tokens_ext. intros m Hm. apply Hagree. by apply elem_of_reverse.
      * apply find_some in Hs as [Hin _]. by apply list_elem_of_In.
    + apply walk_tokens_ext. intros m Hm. apply Hagree. by apply elem_of_reverse.
  - intros Hcase.
    destruct (Nat.lt_ge_cases (estimateTokens messages) maxTokens) as [Hlt|Hge].
    + unfold smartContextManagement.
      by destruct (Nat.ltb_spec (estimateTokens messages) maxTokens); [|lia].
    + destruct Hcase as [Hlt|Hold]; [lia|].
      rewrite !smartContextManagement_over_limit by done.
      subst old. by rewrite Hold.
  - intros Hge Hold. rewrite smartContextManagement_over_limit by done.
    subst old. destruct (old_segment messages maxRecent) as [|m l]; [done|].
    cbn [length Nat.ltb Nat.leb]. unfold summarizeOldMessages, bind, await, requests.
    destruct (srv1 _) as [summary|e]; [|done].
    unfold lift_outcome. by destruct (first_choice_content summary).
  - intros Hsame.
    destruct (Nat.lt_ge_cases (estimateTokens messages) maxTokens) as [Hlt|Hge].
    + unfold smartContextManagement.
      by destruct (Nat.ltb_spec (estimateTokens messages) maxTokens); [|lia].
    + rewrite !smartContextManagement_over_limit by done. subst old.
      destruct (0 <? length (old_segment messages maxRecent)); [|done].
      unfold summarizeOldMessages, bind, await. rewrite Hsame.
      destruct (srv2 _) as [summary|e]; [|done].
      unfold lift_outcome. by destruct (first_choice_content summary).
Qed.

(** Witness of C8: a conversation over its limit with a non-empty old
    segment, two tokenizers that count alike, and two providers that give
    the same answer. *)
Lemma reduce_determined_by_inputs_and_provider_witness :
  truncateByTokens (H := char_encoding)
    [sys_msg 5; user_msg 20; assistant_msg 20; user_msg 20] 30
  = truncateByTokens (H := blank_encoding)
      [sys_msg 5; user_msg 20; assistant_msg 20; user_msg 20] 30 ∧
  requests (smartContextManagement estimate_by_chars
              [sys_msg 5; user_msg 20; assistant_msg 20; user_msg 20] 2 30
              (provider_says "recap") tt)
  = [summary_request [user_msg 20]] ∧
  smartContextManagement estimate_by_chars
    [sys_msg 5; user_msg 20; assistant_msg 20; user_msg 20] 2 30 (provider_says "recap") tt
  = smartContextManagement estimate_by_chars
      [sys_msg 5; user_msg 20; assistant_msg 20; user_msg 20] 2 30
      (λ req, provider_says "recap" req) tt.
Proof.
  pose proof (reduce_determined_by_inputs_and_provider char_encoding blank_encoding
                estimate_by_chars [sys_msg 5; user_msg 20; assistant_msg 20; user_msg 20]
                2 30 (provider_says "recap") (λ req, provider_says "recap" req))
    as (Htrunc & _ & Hreq & Hsame).
  split; [|split].
  - apply Htrunc. intros m _. unfold tokens, encode, char_encoding, blank_encoding.
    by rewrite !length_fmap.
  - apply Hreq; [vm_compute; lia | vm_compute; discriminate].
  - by apply Hsame.
Defined.

(** C8, as stated, fails: on the same conversation and budget, two providers
    that summarize differently give two different results, after a request
    to the provider. *)
Lemma smartContextManagement_purity_counterexample :
  outcome (smartContextManagement estimate_by_chars
             [sys_msg 5; user_msg 20; assistant_msg 20; user_msg 20] 2 30
             (provider_says "A") tt)
  ≠ outcome (smartContextManagement estimate_by_chars
               [sys_msg 5; user_msg 20; assistant_msg 20; user_msg 20] 2 30
               (provider_says "B") tt) ∧
  ¬ pure_and_deterministic
      (smartContextManagement estimate_by_chars
         [sys_msg 5; user_msg 20; assistant_msg 20; user_msg 20] 2 30).
Proof.
  split; [vm_compute; congruence|].
  intros Hpure. destruct (Hpure (provider_says "A") (provider_says "B")) as [_ Hreq].
  vm_compute in Hreq. discriminate.
Qed.

(** ** The server's guard *)

(** C9: the handler always answers; it answers with status 400 exactly when
    the [messages] field of the body is not a non-empty array, the payload
    is then the fixed error message and the provider has not been called;
    in every other case the provider has been called once. *)
Theorem chat_handler_bad_request_iff_no_messages
    (node_env : option string) (req_body : option JSON)
    (srv : Service CreateArgs Completion) :
  let r := chat_handler node_env req_body srv tt in
  let messages := get_prop (body_or_empty req_body) "messages" in
  ∃ resp, outcome r = Resolved resp ∧
    (status resp = 400 ↔ non_empty_array messages = false) ∧
    (status resp = 400 →
     body resp = ErrorBody bad_request_message None ∧ requests r = []) ∧
    (status resp ≠ 400 → requests r = [create_args req_body]).
Proof.
  cbn zeta. unfold chat_handler, try_catch, create_args.
  set (b := body_or_empty req_body).
  destruct (get_prop b "messages") as [[| | | |[|item items]|]|] eqn:Hm; cbn;
    try (eexists; split; [reflexivity|]; cbn; repeat split; done).
  unfold bind, await. cbn.
  destruct (srv _) as [completion|e]; cbn.
  - destruct (choices completion !! 0) as [choice|]; cbn;
      eexists; (split; [reflexivity|]); cbn; repeat split; (done || lia).
  - eexists. split; [reflexivity|]. cbn. repeat split; (done || lia).
Qed.

(** Witness of C9: a body whose [messages] is an empty array. *)
Lemma chat_handler_bad_request_iff_no_messages_witness :
  ∃ resp,
    outcome (chat_handler None (Some (JObj [("messages", JArr [])]))
               (completion_says "hello") tt) = Resolved resp ∧
    (status resp = 400 ↔ non_empty_array (Some (JArr [])) = false) ∧
    (status resp = 400 →
     body resp = ErrorBody bad_request_message None ∧
     requests (chat_handler None (Some (JObj [("messages", JArr [])]))
                 (completion_says "hello") tt) = []) ∧
    (status resp ≠ 400 →
     requests (chat_handler None (Some (JObj [("messages", JArr [])]))
                 (completion_says "hello") tt)
     = [create_args (Some (JObj [("messages", JArr [])]))]).
Proof.
  exact (chat_handler_bad_request_iff_no_messages None
           (Some (JObj [("messages", JArr [])])) (completion_says "hello")).
Defined.

(** * Further properties of the code *)

(** ** Array slices *)

Lemma relative_index_neg (len : nat) (n : Z) :
  (0 < n)%Z → relative_index len (- n) = len - Z.to_nat n.
Proof.
  intros Hn. unfold relative_index.
  destruct (Z.ltb_spec (- n) 0); lia.
Qed.

Lemma relative_index_zero (len : nat) : relative_index len 0 = 0.
Proof. unfold relative_index. simpl. lia. Qed.

Lemma slice_from_neg {A} (l : list A) (n : Z) :
  (0 < n)%Z → slice_from l (- n) = drop (length l - Z.to_nat n) l.
Proof. intros Hn. unfold slice_from. by rewrite relative_index_neg. Qed.

Lemma slice_from_zero {A} (l : list A) : slice_from l (- 0) = l.
Proof. unfold slice_from. simpl. by rewrite relative_index_zero. Qed.

(** X1: [arr.slice(0, e)] and [arr.slice(e)] split the array, for every
    index [e], negative or not: the old messages and the recent window of
    [manageContext] are the whole conversation, in order. *)
Theorem slice_head_and_tail_partition {A} (l : list A) (e : Z) :
  (slice l 0 e ++ slice_from l e)%list = l.
Proof.
  unfold slice, slice_from. rewrite relative_index_zero, Nat.sub_0_r.
  simpl. apply take_drop.
Qed.

(** ** The sliding window *)

Lemma find_is_system_suffix (l k : list Message) :
  find is_system (l ++ k) = None → find is_system k = None.
Proof.
  unfold find. induction l as [|m l IH]; simpl; [done|].
  by destruct (is_system m).
Qed.

Lemma find_is_system_drop (messages : list Message) (i : nat) :
  find is_system messages = None → find is_system (drop i messages) = None.
Proof.
  intros Hnone. apply (find_is_system_suffix (take i messages)).
  by rewrite take_drop.
Qed.

Lemma truncateMessages_positive (messages : list Message) (maxMessages : Z) :
  (0 < maxMessages)%Z →
  truncateMessages messages maxMessages
  = (pinned messages ++ drop (length messages - Z.to_nat maxMessages) messages)%list.
Proof.
  intros Hn. unfold truncateMessages, pinned. rewrite slice_from_neg by done.
  by destruct (find is_system messages).
Qed.

Lemma truncateMessages_zero (messages : list Message) :
  truncateMessages messages 0 = (pinned messages ++ messages)%list.
Proof.
  unfold truncateMessages, pinned. rewrite slice_from_zero.
  by destruct (find is_system messages).
Qed.

(** X2: for a positive window, [truncateMessages] returns the pinned system
    message followed by the last [maxMessages] messages of the conversation
    (all of them when there are fewer): at most [maxMessages + 1]
    messages. *)
Theorem truncateMessages_window (messages : list Message) (maxMessages : Z) :
  (0 < maxMessages)%Z →
  truncateMessages messages maxMessages
  = (pinned messages ++ drop (length messages - Z.to_nat maxMessages) messages)%list ∧
  length (truncateMessages messages maxMessages) ≤ Z.to_nat maxMessages + 1.
Proof.
  intros Hn. pose proof (truncateMessages_positive messages maxMessages Hn) as Heq.
  split; [exact Heq|]. rewrite Heq, length_app, length_drop.
  unfold pinned. destruct (find is_system messages); simpl; lia.
Qed.

(** Witness of X2: a window of 2 on four messages. *)
Lemma truncateMessages_window_witness :
  truncateMessages [sys_msg 1; user_msg 2; assistant_msg 3; user_msg 4] 2
  = [sys_msg 1; assistant_msg 3; user_msg 4] ∧
  length (truncateMessages [sys_msg 1; user_msg 2; assistant_msg 3; user_msg 4] 2) ≤ 3.
Proof.
  apply (truncateMessages_window [sys_msg 1; user_msg 2; assistant_msg 3; user_msg 4] 2).
  lia.
Defined.

(** X3: a window of 0 truncates nothing: [slice(-0)] is the whole array, so
    the result is the pinned system message followed by every message. *)
Theorem truncateMessages_zero_window_keeps_all (messages : list Message) :
  truncateMessages messages 0 = (pinned messages ++ messages)%list ∧
  length messages ≤ length (truncateMessages messages 0).
Proof.
  pose proof (truncateMessages_zero messages) as Heq.
  split; [exact Heq|]. rewrite Heq, length_app. lia.
Qed.

(** X4: applying [truncateMessages] twice with the same window changes
    nothing more when the conversation has no system message, or when the
    window is positive and shorter than the conversation. *)
Theorem truncateMessages_idempotent_off_the_pinned (messages : list Message)
    (maxMessages : Z) :
  (0 ≤ maxMessages)%Z →
  find is_system messages = None ∨
    (0 < maxMessages < Z.of_nat (length messages))%Z →
  truncateMessages (truncateMessages messages maxMessages) maxMessages
  = truncateMessages messages maxMessages.
Proof.
  intros Hn0 Hcase.
  destruct (decide (maxMessages = 0%Z)) as [->|Hne].
  - destruct Hcase as [Hnone|[? _]]; [|lia].
    rewrite (truncateMessages_zero messages). unfold pinned. rewrite Hnone. simpl.
    rewrite (truncateMessages_zero messages). unfold pinned. by rewrite Hnone.
  - assert (Hpos : (0 < maxMessages)%Z) by lia.
    rewrite (truncateMessages_positive messages) by done.
    set (recent := drop (length messages - Z.to_nat maxMessages) messages).
    rewrite (truncateMessages_positive (pinned messages ++ recent)) by done.
    destruct (find is_system messages) as [s|] eqn:Hs.
    + destruct Hcase as [|[_ Hlt]]; [done|].
      assert (Hp : pinned messages = [s]) by (unfold pinned; by rewrite Hs).
      rewrite !Hp. cbn [app].
      assert (Hp' : pinned (s :: recent) = [s]).
      { unfold pinned, find. simpl. by rewrite (is_system_pinned _ _ Hs). }
      rewrite Hp'. cbn [app]. f_equal.
      replace (length (s :: recent) - Z.to_nat maxMessages) with 1; [done|].
      subst recent. cbn [length]. rewrite length_drop. lia.
    + assert (Hp : pinned messages = []) by (unfold pinned; by rewrite Hs).
      rewrite !Hp. cbn [app].
      assert (Hp' : pinned recent = []).
      { unfold pinned. subst recent. by rewrite find_is_system_drop. }
      rewrite Hp'. cbn [app].
      replace (length recent - Z.to_nat maxMessages) with 0; [done|].
      subst recent. rewrite length_drop. lia.
Qed.

(** Witness of X4: a window of 2 on four messages, system message first. *)
Lemma truncateMessages_idempotent_off_the_pinned_witness :
  truncateMessages
    (truncateMessages [sys_msg 1; user_msg 2; assistant_msg 3; user_msg 4] 2) 2
  = truncateMessages [sys_msg 1; user_msg 2; assistant_msg 3; user_msg 4] 2.
Proof.
  apply (truncateMessages_idempotent_off_the_pinned
           [sys_msg 1; user_msg 2; assistant_msg 3; user_msg 4] 2).
  - lia.
  - right. simpl. lia.
Defined.

(** X5: when the conversation has a system message and the window is 0 or
    covers the whole conversation, [truncateMessages] returns the
    conversation with one more copy of that system message in front. *)
Theorem truncateMessages_repeats_pinned_in_window (messages : list Message)
    (maxMessages : Z) (s : Message) :
  find is_system messages = Some s →
  maxMessages = 0%Z ∨ (Z.of_nat (length messages) ≤ maxMessages)%Z →
  truncateMessages messages maxMessages = s :: messages.
Proof.
  intros Hs [->|Hcover].
  - rewrite truncateMessages_zero. unfold pinned. by rewrite Hs.
  - destruct (decide (maxMessages = 0%Z)) as [->|Hne].
    + destruct messages; [done | simpl in Hcover; lia].
    + rewrite truncateMessages_positive by lia.
      unfold pinned. rewrite Hs. cbn [option_list option_rect app].
      by replace (length messages - Z.to_nat maxMessages) with 0 by lia.
Qed.

(** Witness of X5: the terminal client's first two messages under the
    default window of 20. *)
Lemma truncateMessages_repeats_pinned_in_window_witness :
  truncateMessages [sys_msg 4; user_msg 6] 20 = sys_msg 4 :: [sys_msg 4; user_msg 6].
Proof.
  apply (truncateMessages_repeats_pinned_in_window [sys_msg 4; user_msg 6] 20).
  - reflexivity.
  - right. simpl. lia.
Defined.

(** ** Token-based truncation *)

(** Witness of X7: a system message of 40 tokens under a limit of 10. *)
Lemma truncateByTokens_pinned_last_witness :
  last (truncateByTokens (H := char_encoding) [user_msg 3; sys_msg 40; user_msg 5] 10)
  = Some (sys_msg 40).
Proof.
  apply (truncateByTokens_pinned_last (H := char_encoding)
           [user_msg 3; sys_msg 40; user_msg 5] 10 (sys_msg 40)).
  reflexivity.
Defined.

Lemma non_system_pinned_submseteq (messages : list Message) :
  (non_system messages ++ pinned messages)%list ⊆+ messages.
Proof.
  induction messages as [|m l IH]; [done|].
  unfold non_system, pinned, find in *. rewrite filter_cons. simpl.
  destruct (is_system m) eqn:Hm.
  - destruct (decide (true = false)) as [|_]; [done|].
    cbn [option_list option_rect].
    rewrite <- Permutation_cons_append. apply submseteq_skip.
    apply sublist_submseteq, sublist_filter.
  - destruct (decide (false = false)) as [_|]; [|done].
    simpl. apply submseteq_skip, IH.
Qed.

(** X8: [truncateByTokens] never adds or repeats a message: its result,
    counted with multiplicity, is part of the conversation, and so is never
    longer. *)
Theorem truncateByTokens_submseteq `{Encoding}
    (messages : list Message) (maxTokens : nat) :
  truncateByTokens messages maxTokens ⊆+ messages ∧
  length (truncateByTokens messages maxTokens) ≤ length messages.
Proof.
  assert (Hsub : truncateByTokens messages maxTokens ⊆+ messages).
  { destruct (truncateByTokens_split messages maxTokens)
      as (dropped & kept & Hns & -> & _ & _).
    etrans; [|apply non_system_pinned_submseteq].
    apply submseteq_skips_r. rewrite Hns. by apply submseteq_inserts_l. }
  split; [exact Hsub | by apply submseteq_length].
Qed.

(** X9: when the non-system messages fit the limit together with the pinned
    message, nothing is dropped: the result is all the non-system messages,
    in order, followed by the pinned message. *)
Theorem truncateByTokens_all_fit `{Encoding}
    (messages : list Message) (maxTokens : nat) :
  total_tokens (pinned messages) + total_tokens (non_system messages) ≤ maxTokens →
  truncateByTokens messages maxTokens
  = (non_system messages ++ pinned messages)%list.
Proof.
  intros Hfit.
  destruct (truncateByTokens_split messages maxTokens)
    as (dropped & kept & Hns & -> & _ & Hnext).
  f_equal.
  assert (Hsuf : non_system messages `suffix_of` kept).
  { by eapply truncateByTokens_keeps_fitting_suffix. }
  apply suffix_length in Hsuf. rewrite Hns, length_app in Hsuf.
  destruct dropped; [by rewrite Hns | simpl in Hsuf; lia].
Qed.

(** Witness of X9: three messages of 31 tokens under a limit of 100. *)
Lemma truncateByTokens_all_fit_witness :
  truncateByTokens (H := char_encoding) [sys_msg 5; user_msg 20; assistant_msg 6] 100
  = (non_system [sys_msg 5; user_msg 20; assistant_msg 6]
     ++ pinned [sys_msg 5; user_msg 20; assistant_msg 6])%list.
Proof.
  apply (truncateByTokens_all_fit (H := char_encoding)
           [sys_msg 5; user_msg 20; assistant_msg 6] 100).
  vm_compute. lia.
Defined.

(** X10: a larger limit never loses a message: what [truncateByTokens] keeps
    under a limit is the end of what it keeps under any larger limit. *)
Theorem truncateByTokens_monotone `{Encoding}
    (messages : list Message) (maxTokens maxTokens' : nat) :
  maxTokens ≤ maxTokens' →
  truncateByTokens messages maxTokens `suffix_of` truncateByTokens messages maxTokens'.
Proof.
  intros Hle.
  destruct (truncateByTokens_split messages maxTokens)
    as (dropped & kept & Hns & -> & Hfit & _).
  destruct (truncateByTokens_split messages maxTokens')
    as (dropped' & kept' & Hns' & -> & _ & Hnext').
  apply suffix_app.
  destruct (decide (kept = [])) as [->|Hne]; [apply suffix_nil|].
  eapply truncateByTokens_keeps_fitting_suffix; [done..| |].
  - rewrite Hns. by apply suffix_app_r.
  - specialize (Hfit Hne). lia.
Qed.

(** Witness of X10: limits of 10 and 30 on the same conversation. *)
Lemma truncateByTokens_monotone_witness :
  truncateByTokens (H := char_encoding) [sys_msg 5; user_msg 20; assistant_msg 4] 10
  `suffix_of`
  truncateByTokens (H := char_encoding) [sys_msg 5; user_msg 20; assistant_msg 4] 30.
Proof.
  apply (truncateByTokens_monotone (H := char_encoding)
           [sys_msg 5; user_msg 20; assistant_msg 4] 10 30).
  lia.
Defined.

(** ** Summaries and the recent window *)

Lemma last_drop_lt {A} (l : list A) (i : nat) (x : A) :
  last l = Some x → i < length l → last (drop i l) = Some x.
Proof.
  intros Hlast Hi. rewrite <- (take_drop i l), last_app in Hlast.
  destruct (last (drop i l)) as [y|] eqn:Hy; [done|].
  apply last_None in Hy. apply (f_equal length) in Hy.
  rewrite length_drop in Hy. simpl in Hy. lia.
Qed.

(** The recent window holds the newest message. *)
Lemma last_slice_from {A} (l : list A) (n : Z) (x : A) :
  (0 ≤ n)%Z → last l = Some x → last (slice_from l (- n)) = Some x.
Proof.
  intros Hn Hlast. destruct (decide (n = 0%Z)) as [->|Hne].
  - by rewrite slice_from_zero.
  - rewrite slice_from_neg by lia. apply last_drop_lt; [done|].
    destruct l; [done | simpl; lia].
Qed.

Lemma last_opt_cons {A} (o : option A) (l : list A) (x : A) :
  last l = Some x → last (opt_cons o l) = Some x.
Proof. intros Hl. destruct o; simpl; [|done]. by rewrite last_cons, Hl. Qed.

Lemma length_opt_cons {A} (o : option A) (l : list A) :
  length (opt_cons o l) ≤ S (length l).
Proof. destruct o; simpl; lia. Qed.

Lemma opt_cons_pinned (messages rest : list Message) :
  opt_cons (find is_system messages) rest = (pinned messages ++ rest)%list.
Proof. unfold pinned. by destruct (find is_system messages). Qed.

(** What a run of [summarizeOldMessages] yields. *)
Lemma summarizeOldMessages_run (old : list Message)
    (srv : Service ChatRequest Completion) :
  summarizeOldMessages old srv tt
  = (match srv (summary_request old) with
     | Resolved summary =>
         match first_choice_content summary with
         | Resolved text =>
             Resolved (mkMessage "system" ("Previous conversation summary: " +:+ text))
         | Rejected e => Rejected e
         end
     | Rejected e => Rejected e
     end, tt, [summary_request old]).
Proof.
  unfold summarizeOldMessages, bind, await.
  destruct (srv _) as [summary|e]; [|done].
  unfold lift_outcome. by destruct (first_choice_content summary).
Qed.

(** The result of a step that summarizes [old] and puts the summary between
    the pinned message and [recent]. *)
Lemma summarize_then_cons_run (old : list Message) (pin : option Message)
    (recent : list Message) (srv : Service ChatRequest Completion) :
  (let* summary := summarizeOldMessages old in
   ret (S := unit) (opt_cons pin (summary :: recent))) srv tt
  = (match outcome (summarizeOldMessages old srv tt) with
     | Resolved summary => Resolved (opt_cons pin (summary :: recent))
     | Rejected e => Rejected e
     end, tt, [summary_request old]).
Proof.
  unfold bind at 1. rewrite summarizeOldMessages_run. unfold outcome. cbn [fst snd].
  destruct (srv _) as [summary|e]; [|done].
  by destruct (first_choice_content summary).
Qed.

(** X11: whenever [smartContextManagement] returns a result for a
    non-negative window, the newest message of the conversation is the last
    message of that result. *)
Theorem smartContextManagement_keeps_newest
    (estimateTokens : list Message → nat) (messages : list Message)
    (maxRecent : Z) (maxTokens : nat) (srv : Service ChatRequest Completion)
    (m : Message) (result : list Message) :
  (0 ≤ maxRecent)%Z →
  last messages = Some m →
  outcome (smartContextManagement estimateTokens messages maxRecent maxTokens srv tt)
  = Resolved result →
  last result = Some m.
Proof.
  intros Hn Hlast.
  pose proof (last_slice_from messages maxRecent m Hn Hlast) as Hrecent.
  destruct (Nat.lt_ge_cases (estimateTokens messages) maxTokens) as [Hlt|Hge].
  - unfold smartContextManagement.
    destruct (Nat.ltb_spec (estimateTokens messages) maxTokens); [|lia].
    by intros [= <-].
  - rewrite smartContextManagement_over_limit by done.
    destruct (0 <? length (old_segment messages maxRecent)).
    + rewrite summarize_then_cons_run. unfold outcome at 1. cbn [fst].
      destruct (outcome _) as [summary|e]; [|done]. intros [= <-].
      apply last_opt_cons. by rewrite last_cons, Hrecent.
    + intros [= <-]. by apply last_opt_cons.
Qed.

(** Witness of X11: four messages over a limit of 30 and a window of 2. *)
Lemma smartContextManagement_keeps_newest_witness :
  last [sys_msg 5; mkMessage "system" ("Previous conversation summary: " +:+ "recap");
        assistant_msg 20; user_msg 20]
  = Some (user_msg 20).
Proof.
  apply (smartContextManagement_keeps_newest estimate_by_chars
           [sys_msg 5; user_msg 20; assistant_msg 20; user_msg 20] 2 30
           (provider_says "recap") (user_msg 20)).
  - lia.
  - reflexivity.
  - vm_compute. reflexivity.
Defined.

(** X12: over the limit, a window of 0 or one that covers the whole
    conversation makes [smartContextManagement] return, without a request,
    the pinned system message followed by the whole conversation: nothing is
    reduced. *)
Theorem smartContextManagement_window_covers_all
    (estimateTokens : list Message → nat) (messages : list Message)
    (maxRecent : Z) (maxTokens : nat) (srv : Service ChatRequest Completion) :
  maxTokens ≤ estimateTokens messages →
  maxRecent = 0%Z ∨ (Z.of_nat (length messages) ≤ maxRecent)%Z →
  smartContextManagement estimateTokens messages maxRecent maxTokens srv tt
  = (Resolved (pinned messages ++ messages)%list, tt, []).
Proof.
  intros Hge Hcover. rewrite smartContextManagement_over_limit by done.
  assert (Hrecent : slice_from messages (- maxRecent) = messages).
  { destruct (decide (maxRecent = 0%Z)) as [->|Hne]; [apply slice_from_zero|].
    rewrite slice_from_neg by lia.
    replace (length messages - Z.to_nat maxRecent) with 0 by lia. done. }
  assert (Hold : old_segment messages maxRecent = []).
  { unfold old_segment, slice.
    replace (relative_index (length messages) (- maxRecent)) with 0.
    - done.
    - destruct (decide (maxRecent = 0%Z)) as [->|Hne].
      + simpl. by rewrite relative_index_zero.
      + rewrite relative_index_neg by lia. lia. }
  rewrite Hold, Hrecent. cbn [length Nat.ltb Nat.leb].
  by rewrite opt_cons_pinned.
Qed.

(** Witness of X12: two messages over a limit of 5 with the window of 10. *)
Lemma smartContextManagement_window_covers_all_witness :
  smartContextManagement estimate_by_chars [sys_msg 4; user_msg 6] 10 5 provider_down tt
  = (Resolved (pinned [sys_msg 4; user_msg 6] ++ [sys_msg 4; user_msg 6])%list, tt, []).
Proof.
  apply (smartContextManagement_window_covers_all estimate_by_chars
           [sys_msg 4; user_msg 6] 10 5 provider_down).
  - vm_compute. lia.
  - right. simpl. lia.
Defined.

(** X13: over the limit and for a positive window, a result of
    [smartContextManagement] has at most [maxRecent + 2] messages: the
    pinned message, the summary and the window. *)
Theorem smartContextManagement_bounds_count
    (estimateTokens : list Message → nat) (messages : list Message)
    (maxRecent : Z) (maxTokens : nat) (srv : Service ChatRequest Completion)
    (result : list Message) :
  (0 < maxRecent)%Z →
  maxTokens ≤ estimateTokens messages →
  outcome (smartContextManagement estimateTokens messages maxRecent maxTokens srv tt)
  = Resolved result →
  length result ≤ Z.to_nat maxRecent + 2.
Proof.
  intros Hn Hge. rewrite smartContextManagement_over_limit by done.
  assert (Hrecent : length (slice_from messages (- maxRecent)) ≤ Z.to_nat maxRecent).
  { rewrite slice_from_neg, length_drop by done. lia. }
  destruct (0 <? length (old_segment messages maxRecent)).
  - rewrite summarize_then_cons_run. unfold outcome at 1. cbn [fst].
    destruct (outcome _) as [summary|e]; [|done]. intros [= <-].
    etrans; [apply length_opt_cons|]. simpl. lia.
  - intros [= <-]. etrans; [apply length_opt_cons|]. lia.
Qed.

(** Witness of X13: four messages over a limit of 30 and a window of 2. *)
Lemma smartContextManagement_bounds_count_witness :
  length [sys_msg 5; mkMessage "system" ("Previous conversation summary: " +:+ "recap");
          assistant_msg 20; user_msg 20]
  ≤ Z.to_nat 2 + 2.
Proof.
  apply (smartContextManagement_bounds_count estimate_by_chars
           [sys_msg 5; user_msg 20; assistant_msg 20; user_msg 20] 2 30
           (provider_says "recap")).
  - lia.
  - vm_compute. lia.
  - vm_compute. reflexivity.
Defined.

(** X14: for a positive window shorter than the conversation, the old
    segment and the recent window of [smartContextManagement] are together
    the conversation without its first message when the conversation has a
    system message (wherever it stands), and the whole conversation when it
    has none. *)
Theorem old_segment_and_recent_window (messages : list Message) (maxRecent : Z) :
  (0 < maxRecent < Z.of_nat (length messages))%Z →
  (old_segment messages maxRecent ++ slice_from messages (- maxRecent))%list
  = drop (match find is_system messages with Some _ => 1 | None => 0 end) messages.
Proof.
  intros [Hpos Hlt]. unfold old_segment, slice.
  rewrite slice_from_neg, relative_index_neg by done.
  destruct (find is_system messages).
  - replace (relative_index (length messages) 1) with 1
      by (unfold relative_index; destruct (Z.ltb_spec 1 0); lia).
    replace (drop (length messages - Z.to_nat maxRecent) messages)
      with (drop (length messages - Z.to_nat maxRecent - 1) (drop 1 messages)).
    + apply take_drop.
    + rewrite drop_drop. f_equal. lia.
  - rewrite relative_index_zero, Nat.sub_0_r. simpl. apply take_drop.
Qed.

(** Witness of X14: a system message in second place: the first message is
    in neither part. *)
Lemma old_segment_and_recent_window_witness :
  (old_segment [user_msg 1; sys_msg 2; user_msg 3; assistant_msg 4; user_msg 5] 2
   ++ slice_from [user_msg 1; sys_msg 2; user_msg 3; assistant_msg 4; user_msg 5] (- 2))%list
  = drop 1 [user_msg 1; sys_msg 2; user_msg 3; assistant_msg 4; user_msg 5].
Proof.
  apply (old_segment_and_recent_window
           [user_msg 1; sys_msg 2; user_msg 3; assistant_msg 4; user_msg 5] 2).
  simpl. lia.
Defined.

(** ** [manageContext] *)

Lemma manageContext_long (messages : list Message) (maxRecent : Z)
    (srv : Service ChatRequest Completion) :
  (maxRecent < Z.of_nat (length messages))%Z →
  manageContext messages maxRecent srv tt
  = (match outcome (summarizeOldMessages (slice messages 0 (- maxRecent)) srv tt) with
     | Resolved summary =>
         Resolved (opt_cons (find is_system messages)
                     (summary :: slice_from messages (- maxRecent)))
     | Rejected e => Rejected e
     end, tt, [summary_request (slice messages 0 (- maxRecent))]).
Proof.
  intros Hlong. unfold manageContext.
  destruct (Z.leb_spec (Z.of_nat (length messages)) maxRecent); [lia|].
  apply summarize_then_cons_run.
Qed.

(** X15: for a positive window, a result of [manageContext] has at most
    [maxRecent + 2] messages, whether the conversation was short enough to
    be returned as it is or was summarized. *)
Theorem manageContext_bounds_count (messages : list Message) (maxRecent : Z)
    (srv : Service ChatRequest Completion) (result : list Message) :
  (0 < maxRecent)%Z →
  outcome (manageContext messages maxRecent srv tt) = Resolved result →
  length result ≤ Z.to_nat maxRecent + 2.
Proof.
  intros Hn.
  destruct (Z.le_gt_cases (Z.of_nat (length messages)) maxRecent) as [Hshort|Hlong].
  - unfold manageContext.
    destruct (Z.leb_spec (Z.of_nat (length messages)) maxRecent); [|lia].
    intros [= <-]. lia.
  - rewrite manageContext_long by lia. unfold outcome at 1. cbn [fst].
    destruct (outcome _) as [summary|e]; [|done]. intros [= <-].
    etrans; [apply length_opt_cons|]. simpl.
    rewrite slice_from_neg, length_drop by done. lia.
Qed.

(** Witness of X15: four messages and a window of 2. *)
Lemma manageContext_bounds_count_witness :
  length [sys_msg 1;
          mkMessage "system" ("Previous conversation summary: " +:+ "recap");
          assistant_msg 3; user_msg 4]
  ≤ Z.to_nat 2 + 2.
Proof.
  apply (manageContext_bounds_count [sys_msg 1; user_msg 2; assistant_msg 3; user_msg 4] 2
           (provider_says "recap")).
  - lia.
  - vm_compute. reflexivity.
Defined.

(** X16: with a window of 0, [manageContext] asks the provider to summarize
    an empty list of messages and, when that succeeds, returns the pinned
    message, that summary and then every message of the conversation. *)
Theorem manageContext_zero_window (messages : list Message)
    (srv : Service ChatRequest Completion) :
  messages ≠ [] →
  requests (manageContext messages 0 srv tt) = [summary_request []] ∧
  ∀ result, outcome (manageContext messages 0 srv tt) = Resolved result →
    ∃ summary, result = (pinned messages ++ summary :: messages)%list.
Proof.
  intros Hne.
  assert (Hlong : (0 < Z.of_nat (length messages))%Z).
  { destruct messages; [done | simpl; lia]. }
  rewrite manageContext_long by done.
  assert (Hold : slice messages 0 (- 0) = []).
  { unfold slice. simpl. by rewrite relative_index_zero. }
  rewrite Hold, slice_from_zero. split; [done|].
  intros result. unfold outcome at 1. cbn [fst].
  destruct (outcome _) as [summary|e]; [|done]. intros [= <-].
  exists summary. apply opt_cons_pinned.
Qed.

(** Witness of X16: two messages. *)
Lemma manageContext_zero_window_witness :
  requests (manageContext [user_msg 1; assistant_msg 2] 0 (provider_says "recap") tt)
  = [summary_request []] ∧
  ∀ result,
    outcome (manageContext [user_msg 1; assistant_msg 2] 0 (provider_says "recap") tt)
    = Resolved result →
    ∃ summary, result = (pinned [user_msg 1; assistant_msg 2]
                         ++ summary :: [user_msg 1; assistant_msg 2])%list.
Proof.
  apply (manageContext_zero_window [user_msg 1; assistant_msg 2] (provider_says "recap")).
  discriminate.
Defined.

(** ** Turns of the terminal client *)

(** What a turn leaves behind: the user message, then the reply if there is
    one; and the one request it sent. *)
Lemma callChatEndpoint_run (port : option string) (userInput : string)
    (srv : Service FetchRequest HttpResponse) (messages : list Message) :
  ∃ o, callChatEndpoint port userInput srv messages
       = (o,
          (messages ++ mkMessage "user" userInput ::
             match o with
             | Resolved reply => [mkMessage "assistant" reply]
             | Rejected _ => []
             end)%list,
          [turn_request port messages userInput]) ∧
       (completion_call_fails (srv (turn_request port messages userInput)) = true
        ↔ ∃ e, o = Rejected e) ∧
       (∀ reply, o = Resolved reply → reply ≠ "").
Proof.
  unfold callChatEndpoint, turn_request, completion_call_fails,
    bind, push, modify_state, get_state, await.
  cbn.
  destruct (srv _) as [[ok st txt js]|e]; cbn.
  - destruct ok; cbn.
    + destruct js as [data|e]; cbn.
      * exists (Resolved (reply_or_default data)).
        split; [by rewrite <- app_assoc|]. split.
        -- split; [done | by intros [? ?]].
        -- intros reply [= <-]. unfold reply_or_default.
           destruct (reply data) as [r|]; [|done].
           destruct (String.eqb_spec r ""); done.
      * eexists (Rejected _). split; [reflexivity|]. split; [|done]. split; [by eexists | done].
    + eexists (Rejected _). split; [reflexivity|]. split; [|done]. split; [by eexists | done].
  - eexists (Rejected _). split; [reflexivity|]. split; [|done]. split; [by eexists | done].
Qed.

(** X17: the reply of a successful turn is never the empty text (an absent
    or empty reply of the server is replaced by a placeholder), and it is
    the content of the assistant message the turn leaves last in the
    history. *)
Theorem callChatEndpoint_reply_not_empty (port : option string) (userInput : string)
    (srv : Service FetchRequest HttpResponse) (messages : list Message)
    (answer : string) :
  outcome (callChatEndpoint port userInput srv messages) = Resolved answer →
  answer ≠ "" ∧
  last (final_state (callChatEndpoint port userInput srv messages))
  = Some (mkMessage "assistant" answer).
Proof.
  destruct (callChatEndpoint_run port userInput srv messages) as (o & -> & _ & Hne).
  unfold outcome, final_state. cbn [fst snd]. intros ->. split; [by apply Hne|].
  by rewrite last_app.
Qed.

(** Witness of X17: a server that answers with an empty reply. *)
Lemma callChatEndpoint_reply_not_empty_witness :
  "(no reply)" ≠ "" ∧
  last (final_state (callChatEndpoint None "hi" (server_replies "") initial_messages))
  = Some (mkMessage "assistant" "(no reply)").
Proof.
  apply (callChatEndpoint_reply_not_empty None "hi" (server_replies "") initial_messages).
  reflexivity.
Defined.

(** X18: after a turn whose completion call failed, the next turn sends the
    history with both user messages at its end, one after the other. *)
Theorem callChatEndpoint_after_failed_turn (port : option string)
    (first second : string) (srv srv' : Service FetchRequest HttpResponse)
    (messages : list Message) :
  completion_call_fails (srv (turn_request port messages first)) = true →
  (λ req, fb_messages (fr_body req)) <$>
    requests (callChatEndpoint port second srv'
                (final_state (callChatEndpoint port first srv messages)))
  = [(messages ++ [mkMessage "user" first; mkMessage "user" second])%list].
Proof.
  intros Hfail.
  destruct (callChatEndpoint_run port first srv messages) as (o & -> & Hiff & _).
  destruct (proj1 Hiff Hfail) as [e He]. subst o. unfold final_state. cbn [fst snd].
  destruct (callChatEndpoint_run port second srv'
              (messages ++ [mkMessage "user" first])) as (o' & -> & _ & _).
  unfold requests. cbn. by rewrite <- app_assoc.
Qed.

(** Witness of X18: a turn answered with status 500, then a second turn. *)
Lemma callChatEndpoint_after_failed_turn_witness :
  (λ req, fb_messages (fr_body req)) <$>
    requests (callChatEndpoint None "again" (server_replies "ok")
                (final_state (callChatEndpoint None "hi" server_error initial_messages)))
  = [(initial_messages ++ [mkMessage "user" "hi"; mkMessage "user" "again"])%list].
Proof.
  apply (callChatEndpoint_after_failed_turn None "hi" "again" server_error
           (server_replies "ok") initial_messages).
  reflexivity.
Defined.

(** ** The loop of the terminal client *)

Section MainFacts.
Variable trim : string → string.
Variable toLowerCase : string → string.
Variable port : option string.

(** A pass of the loop body always completes, and leaves the user message
    and at most a reply. *)
Lemma chat_turn_run (userInput : string)
    (srv : Service FetchRequest HttpResponse) (messages : list Message) :
  ∃ printed replies,
    chat_turn port userInput srv messages
    = (Resolved printed,
       (messages ++ mkMessage "user" userInput :: replies)%list,
       [turn_request port messages userInput]) ∧
    (replies = [] ∨ ∃ reply, replies = [mkMessage "assistant" reply]).
Proof.
  unfold chat_turn, try_catch, bind.
  destruct (callChatEndpoint_run port userInput srv messages) as (o & -> & _ & _).
  destruct o as [reply|e]; cbn.
  - do 2 eexists. split; [reflexivity|]. right. by eexists.
  - do 2 eexists. split; [reflexivity|]. by left.
Qed.

Lemma chat_loop_run (inputs : list string)
    (srv : Service FetchRequest HttpResponse) (messages : list Message) :
  ∃ run appended sent,
    chat_loop trim toLowerCase port inputs srv messages
    = (Resolved run, (messages ++ appended)%list, sent) ∧
    user_contents appended = accepted_inputs trim toLowerCase inputs ∧
    Forall (λ m, role m = "user" ∨ role m = "assistant") appended ∧
    length sent = length (accepted_inputs trim toLowerCase inputs).
Proof.
  revert messages. induction inputs as [|userInput rest IH]; intros messages; simpl.
  - exists ([], false), [], []. by rewrite app_nil_r.
  - destruct (String.eqb (trim userInput) ""); [apply IH|].
    destruct (String.eqb (toLowerCase userInput) "exit").
    + exists ([], true), [], []. by rewrite app_nil_r.
    + unfold bind at 1.
      destruct (chat_turn_run userInput srv messages)
        as (printed & replies & -> & Hreplies).
      unfold bind at 1.
      destruct (IH (messages ++ mkMessage "user" userInput :: replies)%list)
        as (run & appended & sent & -> & Husers & Hroles & Hsent).
      cbn. rewrite app_nil_r.
      eexists _, (mkMessage "user" userInput :: replies ++ appended)%list, _.
      split; [by rewrite <- app_assoc|]. split; [|split].
      * unfold user_contents in *. rewrite filter_cons_True by done.
        rewrite filter_app, fmap_cons, fmap_app, Husers. cbn. f_equal.
        destruct Hreplies as [->|[reply ->]]; [done|].
        by rewrite filter_cons_False.
      * constructor; [by left|]. apply Forall_app. split; [|done].
        destruct Hreplies as [->|[reply ->]]; [constructor|].
        constructor; [by right | constructor].
      * simpl. by rewrite Hsent.
Qed.

(** X19: the client's loop never ends in an error, whatever the server does.
    It only appends to the history, user and assistant messages; the user
    messages it appends are exactly the lines typed before the first [exit]
    that are not blank, in order, and it sends one request for each of
    them. *)
Theorem main_appends_accepted_inputs (inputs : list string)
    (srv : Service FetchRequest HttpResponse) (messages : list Message) :
  let r := main trim toLowerCase port inputs srv messages in
  ∃ printed appended,
    outcome r = Resolved printed ∧
    final_state r = (messages ++ appended)%list ∧
    user_contents appended = accepted_inputs trim toLowerCase inputs ∧
    Forall (λ m, role m = "user" ∨ role m = "assistant") appended ∧
    length (requests r) = length (accepted_inputs trim toLowerCase inputs).
Proof.
  cbn zeta. unfold main, bind.
  destruct (chat_loop_run inputs srv messages)
    as (run & appended & sent & -> & Husers & Hroles & Hsent).
  cbn. eexists _, appended. rewrite app_nil_r. by repeat split.
Qed.

(** X20: the loop leaves the pinned system message of the history as it
    found it: the first system message after the loop is the first one
    before it, or there is none in either. *)
Theorem main_keeps_pinned (inputs : list string)
    (srv : Service FetchRequest HttpResponse) (messages : list Message) :
  find is_system (final_state (main trim toLowerCase port inputs srv messages))
  = find is_system messages.
Proof.
  unfold main, bind.
  destruct (chat_loop_run inputs srv messages)
    as (run & appended & sent & -> & _ & Hroles & _).
  unfold final_state. cbn [fst snd]. unfold find.
  induction messages as [|m l IH]; simpl.
  - induction Hroles as [|a k Ha _ IHk]; simpl; [done|].
    unfold is_system at 1. by destruct Ha as [-> | ->].
  - by destruct (is_system m).
Qed.
End MainFacts.

(** ** Answers of the server *)

(** What the handler answers, case by case. *)
Lemma chat_handler_run (node_env : option string) (req_body : option JSON)
    (srv : Service CreateArgs Completion) :
  chat_handler node_env req_body srv tt
  = if non_empty_array (get_prop (body_or_empty req_body) "messages") then
      (Resolved
         match srv (create_args req_body) with
         | Resolved completion =>
             match choices completion !! 0 with
             | Some choice =>
                 res_json_ok (ChatBody (content <$> message choice)
                                (usage completion) completion)
             | None =>
                 res_status_json 500
                   (ErrorBody "Something went wrong"
                      (if bool_decide (node_env = Some "development")
                       then Some (String_of_error
                                    (type_error
                                       "Cannot read properties of undefined (reading 'message')"))
                       else None))
             end
         | Rejected e =>
             res_status_json 500
               (ErrorBody "Something went wrong"
                  (if bool_decide (node_env = Some "development")
                   then Some (String_of_error e) else None))
         end, tt, [create_args req_body])
    else (Resolved (res_status_json 400 (ErrorBody bad_request_message None)), tt, []).
Proof.
  unfold chat_handler, try_catch, create_args.
  set (b := body_or_empty req_body).
  destruct (get_prop b "messages") as [[| | | |[|item items]|]|] eqn:Hm; cbn; try done.
  unfold bind, await. cbn.
  destruct (srv _) as [completion|e]; cbn; [|done].
  by destruct (choices completion !! 0) as [choice|]; cbn.
Qed.


(** X22: outside development mode no answer of the handler carries error
    details: whatever made the provider call fail, the payload of an error
    answer is a fixed message. *)
Theorem chat_handler_hides_error_details (node_env : option string)
    (req_body : option JSON) (srv : Service CreateArgs Completion) :
  node_env ≠ Some "development" →
  ∃ resp,
    outcome (chat_handler node_env req_body srv tt) = Resolved resp ∧
    (status resp ≠ 200 →
     body resp = ErrorBody bad_request_message None ∨
     body resp = ErrorBody "Something went wrong" None).
Proof.
  intros Hdev. rewrite chat_handler_run.
  rewrite !bool_decide_eq_false_2 by done.
  destruct (non_empty_array _); cbn.
  - destruct (srv _) as [completion|e]; cbn.
    + destruct (choices completion !! 0) as [choice|]; cbn;
        (eexists; split; [reflexivity|]); cbn; [done | by right].
    + eexists. split; [reflexivity|]. by right.
  - eexists. split; [reflexivity|]. by left.
Qed.

(** Witness of X22: a provider that cannot be reached, in production. *)
Lemma chat_handler_hides_error_details_witness :
  ∃ resp,
    outcome (chat_handler (Some "production")
               (Some (JObj [("messages", JArr [JStr "hi"])]))
               (λ _, Rejected (mkError "Error" "Connection error.")) tt)
    = Resolved resp ∧
    (status resp ≠ 200 →
     body resp = ErrorBody bad_request_message None ∨
     body resp = ErrorBody "Something went wrong" None).
Proof.
  apply (chat_handler_hides_error_details (Some "production")
           (Some (JObj [("messages", JArr [JStr "hi"])]))
           (λ _, Rejected (mkError "Error" "Connection error."))).
  discriminate.
Defined.

(** ** The strategies one after the other *)

Lemma truncateByTokens_system_part `{Encoding}
    (messages : list Message) (maxTokens : nat) :
  filter (λ m, is_system m = true) (truncateByTokens messages maxTokens)
  = pinned messages.
Proof.
  rewrite truncateByTokens_shape, filter_app.
  pose proof (walk_non_system maxTokens (reverse messages)
                (total_tokens (pinned messages))) as Hkept.
  induction Hkept as [|m k Hm _ IH]; simpl.
  - unfold pinned. destruct (find is_system messages) as [s|] eqn:Hs; [|done].
    cbn [option_list option_rect].
    by rewrite filter_cons_True by (by eapply is_system_pinned).
  - rewrite filter_cons_False by congruence. exact IH.
Qed.

(** X23: when [smartContextManagement] has summarized a conversation that
    has a pinned system message, its result starts with the pinned message
    and the summary, both system messages; [truncateByTokens] applied to
    that result, under any limit, keeps the pinned message as its only
    system message: the summary is dropped. *)
Theorem truncateByTokens_after_summary_drops_it `{Encoding}
    (estimateTokens : list Message → nat) (messages : list Message)
    (maxRecent : Z) (maxTokens limit : nat) (srv : Service ChatRequest Completion)
    (s : Message) (result : list Message) :
  find is_system messages = Some s →
  maxTokens ≤ estimateTokens messages →
  old_segment messages maxRecent ≠ [] →
  outcome (smartContextManagement estimateTokens messages maxRecent maxTokens srv tt)
  = Resolved result →
  (∃ summary, result = s :: summary :: slice_from messages (- maxRecent) ∧
              is_system summary = true) ∧
  filter (λ m, is_system m = true) (truncateByTokens result limit) = [s].
Proof.
  intros Hs Hge Hold. rewrite smartContextManagement_over_limit by done.
  destruct (old_segment messages maxRecent) as [|m old] eqn:Hseg; [done|].
  cbn [length Nat.ltb Nat.leb].
  rewrite summarize_then_cons_run, summarizeOldMessages_run, Hs.
  unfold outcome. cbn [fst].
  destruct (srv _) as [completion|e]; [|done].
  destruct (first_choice_content completion) as [text|e]; [|done].
  intros [= <-]. cbn [opt_cons]. split; [by eexists|].
  rewrite truncateByTokens_system_part. unfold pinned, find. cbn [List.find].
  by rewrite (is_system_pinned _ _ Hs).
Qed.

(** Witness of X23: four messages over a limit of 30, a window of 2, then a
    token limit of 100. *)
Lemma truncateByTokens_after_summary_drops_it_witness :
  (∃ summary,
     [sys_msg 5; mkMessage "system" ("Previous conversation summary: " +:+ "recap");
      assistant_msg 20; user_msg 20]
     = sys_msg 5 :: summary
       :: slice_from [sys_msg 5; user_msg 20; assistant_msg 20; user_msg 20] (- 2) ∧
     is_system summary = true) ∧
  filter (λ m, is_system m = true)
    (truncateByTokens (H := char_encoding)
       [sys_msg 5; mkMessage "system" ("Previous conversation summary: " +:+ "recap");
        assistant_msg 20; user_msg 20] 100)
  = [sys_msg 5].
Proof.
  apply (truncateByTokens_after_summary_drops_it (H := char_encoding) estimate_by_chars
           [sys_msg 5; user_msg 20; assistant_msg 20; user_msg 20] 2 30 100
           (provider_says "recap") (sys_msg 5)).
  - reflexivity.
  - vm_compute. lia.
  - vm_compute. discriminate.
  - vm_compute. reflexivity.
Defined.

(** Witness of X19: five typed lines, one blank and one after [exit],
    with a server that fails on the second turn. *)
Lemma main_appends_accepted_inputs_witness :
  ∃ printed appended,
    outcome (main ascii_trim ascii_toLowerCase None
               ["hello"; "  "; "boom"; "EXIT"; "ignored"]
               (server_fails_on "boom" "ok") initial_messages) = Resolved printed ∧
    final_state (main ascii_trim ascii_toLowerCase None
                   ["hello"; "  "; "boom"; "EXIT"; "ignored"]
                   (server_fails_on "boom" "ok") initial_messages)
    = (initial_messages ++ appended)%list ∧
    user_contents appended
    = accepted_inputs ascii_trim ascii_toLowerCase
        ["hello"; "  "; "boom"; "EXIT"; "ignored"] ∧
    Forall (λ m, role m = "user" ∨ role m = "assistant") appended ∧
    length (requests (main ascii_trim ascii_toLowerCase None
                        ["hello"; "  "; "boom"; "EXIT"; "ignored"]
                        (server_fails_on "boom" "ok") initial_messages))
    = length (accepted_inputs ascii_trim ascii_toLowerCase
                ["hello"; "  "; "boom"; "EXIT"; "ignored"]).
Proof.
  exact (main_appends_accepted_inputs ascii_trim ascii_toLowerCase None
           ["hello"; "  "; "boom"; "EXIT"; "ignored"]
           (server_fails_on "boom" "ok") initial_messages).
Defined.
